(** * ELD trip planner: the front end's log normalisation, time formatting,
      form validation and request construction, with the HOS cycle rule of
      the scheduling engine.

    The JavaScript sources are embedded as Rocq functions.  Hours are
    JavaScript numbers; their finite values are modelled by the rationals
    [Q], so that every comparison, [Math.max], [Math.min], [Math.floor] and
    remainder is the exact one.  Where a result depends on binary64 rounding
    (the sums of [totalsFromPeriods]) a second embedding over primitive
    floats is given in [Binary64]. *)

From Stdlib Require Import ZArith QArith Qround Lqa Lia List String Ascii Bool.
From Stdlib Require Import Floats.
Import ListNotations.

Local Open Scope Q_scope.

(* ================================================================== *)
(** ** JavaScript numbers and strings *)
(* ================================================================== *)

Module JS.

(** A JavaScript number: a finite value, [NaN] or one of the infinities. *)
Inductive number : Type :=
| Fin (q : Q)
| NaN
| PosInf
| NegInf.

Definition Qltb (a b : Q) : bool := negb (Qle_bool b a).

(** [ToBoolean] on numbers: zero and [NaN] are falsy. *)
Definition truthy (n : number) : bool :=
  match n with
  | Fin q => negb (Qeq_bool q 0)
  | NaN => false
  | PosInf | NegInf => true
  end.

(** [x || y] on numbers. *)
Definition or (x y : number) : number := if truthy x then x else y.

(** [a < b]; every comparison with [NaN] is false. *)
Definition ltb (a b : number) : bool :=
  match a, b with
  | NaN, _ | _, NaN => false
  | Fin x, Fin y => Qltb x y
  | NegInf, NegInf => false
  | NegInf, _ => true
  | _, NegInf => false
  | PosInf, _ => false
  | Fin _, PosInf => true
  end.

Definition gtb (a b : number) : bool := ltb b a.

(** [a <= b]. *)
Definition leb (a b : number) : bool :=
  match a, b with
  | NaN, _ | _, NaN => false
  | Fin x, Fin y => Qle_bool x y
  | NegInf, _ => true
  | _, PosInf => true
  | _, _ => false
  end.

Definition geb (a b : number) : bool := leb b a.

Definition isNaN (n : number) : bool :=
  match n with NaN => true | _ => false end.

(** [Number.isFinite]. *)
Definition isFinite (n : number) : bool :=
  match n with Fin _ => true | _ => false end.

(** [Math.max(a, b)] and [Math.min(a, b)]: [NaN] if either argument is. *)
Definition Math_max (a b : number) : number :=
  if isNaN a || isNaN b then NaN else if ltb a b then b else a.

Definition Math_min (a b : number) : number :=
  if isNaN a || isNaN b then NaN else if ltb b a then b else a.

(** *** Strings *)

(** Strings are sequences of code units below 256.  White space and line
    terminators in that range: TAB, LF, VT, FF, CR, SP and NBSP. *)
Definition isWhite (c : ascii) : bool :=
  match N_of_ascii c with
  | 9%N | 10%N | 11%N | 12%N | 13%N | 32%N | 160%N => true
  | _ => false
  end.

Fixpoint trimStartL (s : list ascii) : list ascii :=
  match s with
  | c :: s' => if isWhite c then trimStartL s' else s
  | [] => []
  end.

Definition trimL (s : list ascii) : list ascii :=
  rev (trimStartL (rev (trimStartL s))).

(** [s.trim()]. *)
Definition trim (s : string) : string :=
  string_of_list_ascii (trimL (list_ascii_of_string s)).

(** [s.split(",")], on a string: the pieces between the commas, one more
    than there are commas. *)
Fixpoint splitComma (s : string) : list string :=
  match s with
  | EmptyString => [EmptyString]
  | String c s' =>
      if Ascii.eqb c ","%char then EmptyString :: splitComma s'
      else match splitComma s' with
           | p :: ps => String c p :: ps
           | [] => [String c EmptyString]
           end
  end.

(** *** Numeric literals *)

Definition digitOf (base : N) (c : ascii) : option Z :=
  let n := N_of_ascii c in
  let v :=
    if (48 <=? n)%N && (n <=? 57)%N then Some (n - 48)%N
    else if (97 <=? n)%N && (n <=? 102)%N then Some (n - 87)%N
    else if (65 <=? n)%N && (n <=? 70)%N then Some (n - 55)%N
    else None in
  match v with
  | Some d => if (d <? base)%N then Some (Z.of_N d) else None
  | None => None
  end.

(** The longest run of digits at the head of [s]: its value on top of [acc],
    the number of digits read on top of [cnt], and what follows. *)
Fixpoint digits (base : N) (acc : Z) (cnt : nat) (s : list ascii)
  : Z * nat * list ascii :=
  match s with
  | c :: s' =>
      match digitOf base c with
      | Some d => digits base (Z.of_N base * acc + d)%Z (S cnt) s'
      | None => (acc, cnt, s)
      end
  | [] => (acc, cnt, s)
  end.

Definition pow10 (e : Z) : Q := (inject_Z 10) ^ e.

(** An [ExponentPart] at the head of [s], when there is a well-formed one;
    otherwise exponent 0 and nothing consumed. *)
Definition exponentPart (s : list ascii) : Z * list ascii :=
  match s with
  | c :: s1 =>
      if Ascii.eqb c "e"%char || Ascii.eqb c "E"%char then
        let '(sign, s2) :=
          match s1 with
          | d :: t =>
              if Ascii.eqb d "+"%char then (1%Z, t)
              else if Ascii.eqb d "-"%char then ((-1)%Z, t)
              else (1%Z, s1)
          | [] => (1%Z, s1)
          end in
        let '(v, n, s3) := digits 10 0 0 s2 in
        match n with
        | O => (0%Z, s)
        | S _ => ((sign * v)%Z, s3)
        end
      else (0%Z, s)
  | [] => (0%Z, s)
  end.

Fixpoint startsWith (p s : list ascii) : option (list ascii) :=
  match p, s with
  | [], _ => Some s
  | a :: p', b :: s' => if Ascii.eqb a b then startsWith p' s' else None
  | _ :: _, [] => None
  end.

(** The longest prefix of [s] that is an unsigned [StrDecimalLiteral]
    ([Infinity], [d.d e], [.d e] or [d e]), with its value and the rest. *)
Definition unsignedDecimal (s : list ascii) : option (number * list ascii) :=
  match startsWith (list_ascii_of_string "Infinity") s with
  | Some rest => Some (PosInf, rest)
  | None =>
      let '(i, ni, s1) := digits 10 0 0 s in
      match s1 with
      | c :: s2 =>
          if Ascii.eqb c "."%char then
            let '(f, nf, s3) := digits 10 0 0 s2 in
            match ni, nf with
            | O, O => None
            | _, _ =>
                let '(e, s4) := exponentPart s3 in
                Some (Fin ((inject_Z i + inject_Z f * pow10 (- Z.of_nat nf))
                           * pow10 e), s4)
            end
          else
            match ni with
            | O => None
            | S _ => let '(e, s4) := exponentPart s1 in
                     Some (Fin (inject_Z i * pow10 e), s4)
            end
      | [] =>
          match ni with
          | O => None
          | S _ => Some (Fin (inject_Z i), [])
          end
      end
  end.

Definition negate (n : number) : number :=
  match n with
  | Fin q => Fin (- q)
  | NaN => NaN
  | PosInf => NegInf
  | NegInf => PosInf
  end.

Definition signedDecimal (s : list ascii) : option (number * list ascii) :=
  match s with
  | c :: t =>
      if Ascii.eqb c "+"%char then unsignedDecimal t
      else if Ascii.eqb c "-"%char then
        match unsignedDecimal t with
        | Some (n, rest) => Some (negate n, rest)
        | None => None
        end
      else unsignedDecimal s
  | [] => None
  end.

(** [parseFloat(s)]: leading white space is skipped, the longest decimal
    literal is read and what follows it is ignored. *)
Definition parseFloat (s : string) : number :=
  match signedDecimal (trimStartL (list_ascii_of_string s)) with
  | Some (n, _) => n
  | None => NaN
  end.

(** A [NonDecimalIntegerLiteral]: [0x], [0o] or [0b] and digits to the end. *)
Definition nonDecimal (s : list ascii) : option number :=
  match s with
  | z :: p :: t =>
      if Ascii.eqb z "0"%char then
        let base :=
          if Ascii.eqb p "x"%char || Ascii.eqb p "X"%char then Some 16%N
          else if Ascii.eqb p "o"%char || Ascii.eqb p "O"%char then Some 8%N
          else if Ascii.eqb p "b"%char || Ascii.eqb p "B"%char then Some 2%N
          else None in
        match base with
        | Some b =>
            match digits b 0 0 t with
            | (v, S _, []) => Some (Fin (inject_Z v))
            | _ => Some NaN
            end
        | None => None
        end
      else None
  | _ => None
  end.

(** [Number(s)] on a string: white space is trimmed, the empty string is 0,
    and the whole of the rest must be one numeric literal. *)
Definition StringToNumber (s : string) : number :=
  match trimL (list_ascii_of_string s) with
  | [] => Fin 0
  | t =>
      match nonDecimal t with
      | Some n => n
      | None =>
          match signedDecimal t with
          | Some (n, []) => n
          | _ => NaN
          end
      end
  end.

(** The values a JSON field holds, and [Number(v)] on them. *)
Inductive value : Type :=
| VUndefined
| VNull
| VBool (b : bool)
| VNum (n : number)
| VStr (s : string).

Definition Number (v : value) : number :=
  match v with
  | VUndefined => NaN
  | VNull => Fin 0
  | VBool b => if b then Fin 1 else Fin 0
  | VNum n => n
  | VStr s => StringToNumber s
  end.

(** *** Integers to text *)

Fixpoint decimalDigits (fuel : nat) (n : Z) (acc : string) : string :=
  match fuel with
  | O => acc
  | S fuel' =>
      let acc' := String (ascii_of_N (48 + Z.to_N (n mod 10))) acc in
      if (n <? 10)%Z then acc' else decimalDigits fuel' (n / 10)%Z acc'
  end.

(** [z.toString()] for an integer [z]. *)
Definition intToString (z : Z) : string :=
  let a := Z.abs z in
  let body := decimalDigits (S (Z.to_nat (Z.log2 a))) a EmptyString in
  if (z <? 0)%Z then String "-"%char body else body.

(** [s.padStart(2, "0")]. *)
Definition padStart2 (s : string) : string :=
  match String.length s with
  | O => "00"%string
  | S O => String "0"%char s
  | _ => s
  end.

(** [Math.floor], [Math.round] (halves go up) and the remainder [a % b],
    which takes the sign of [a], on finite values. *)
Definition floorQ (q : Q) : Z := Qfloor q.
Definition roundQ (q : Q) : Z := Qfloor (q + (1 # 2)).
Definition truncQ (q : Q) : Z := if Qle_bool 0 q then Qfloor q else Qceiling q.
Definition remQ (a b : Q) : Q := a - b * inject_Z (truncQ (a / b)).

(** *** Arithmetic on numbers and the operators on values *)

(** [a - b]: an infinity less itself is [NaN]. *)
Definition sub (a b : number) : number :=
  match a, b with
  | NaN, _ | _, NaN => NaN
  | Fin x, Fin y => Fin (x - y)
  | PosInf, PosInf | NegInf, NegInf => NaN
  | PosInf, _ => PosInf
  | NegInf, _ => NegInf
  | Fin _, PosInf => NegInf
  | Fin _, NegInf => PosInf
  end.

(** [a * b]: zero times an infinity is [NaN]. *)
Definition mul (a b : number) : number :=
  match a, b with
  | NaN, _ | _, NaN => NaN
  | Fin x, Fin y => Fin (x * y)
  | Fin x, inf | inf, Fin x =>
      if Qeq_bool x 0 then NaN
      else if Qltb 0 x then inf else negate inf
  | PosInf, PosInf | NegInf, NegInf => PosInf
  | PosInf, NegInf | NegInf, PosInf => NegInf
  end.

(** [ToBoolean] on values. *)
Definition valueTruthy (v : value) : bool :=
  match v with
  | VUndefined | VNull => false
  | VBool b => b
  | VNum n => truthy n
  | VStr EmptyString => false
  | VStr (String _ _) => true
  end.

(** [v || d] and [v ?? d] on values. *)
Definition orElse (v d : value) : value := if valueTruthy v then v else d.

Definition nullish (v d : value) : value :=
  match v with
  | VUndefined | VNull => d
  | _ => v
  end.

(** [Math.round(n)] and [Math.floor(n)] on numbers. *)
Definition Math_round (n : number) : number :=
  match n with
  | Fin q => Fin (inject_Z (roundQ q))
  | _ => n
  end.

Definition Math_floor (n : number) : number :=
  match n with
  | Fin q => Fin (inject_Z (floorQ q))
  | _ => n
  end.

(** [a === b] on numbers. *)
Definition strictEq (a b : number) : bool :=
  match a, b with
  | Fin x, Fin y => Qeq_bool x y
  | PosInf, PosInf | NegInf, NegInf => true
  | _, _ => false
  end.

End JS.

(* ================================================================== *)
(** ** utils/time.js *)
(* ================================================================== *)

Module Time.

Import JS.

Definition numberToString (n : number) (z : Z) : string :=
  match n with
  | Fin _ => intToString z
  | NaN => "NaN"
  | PosInf => "Infinity"
  | NegInf => "-Infinity"
  end.

(** The pieces [formatTripTime] computes from a finite [numeric]. *)
Definition dayOf (numeric : Q) : Z := (floorQ (numeric / 24) + 1)%Z.
Definition hourOfDay (numeric : Q) : Q := remQ numeric 24.
Definition hhOf (numeric : Q) : Z := floorQ (hourOfDay numeric).
Definition mmOf (numeric : Q) : Z := roundQ (remQ (hourOfDay numeric) 1 * 60).

(** [formatTripTime(absHour, separator)].  On an infinite [numeric] the day
    is that infinity and [numeric % 24] is [NaN]. *)
Definition formatTripTime (absHour : value) (separator : string) : string :=
  let numeric := or (Number absHour) (Fin 0) in
  match numeric with
  | Fin q =>
      ("Day " ++ intToString (dayOf q) ++ separator
        ++ padStart2 (intToString (hhOf q)) ++ ":"
        ++ padStart2 (intToString (mmOf q)))%string
  | _ =>
      ("Day " ++ numberToString numeric 0 ++ separator ++ "NaN:NaN")%string
  end.

Definition formatAbsoluteTime (absHour : value) : string :=
  formatTripTime absHour " ".

(** *** What [formatTripTime] prints for an hour that is not negative *)

Lemma floor_bounds (x : Q) :
  inject_Z (Qfloor x) <= x /\ x < inject_Z (Qfloor x) + 1.
Proof.
  split; [apply Qfloor_le |].
  pose proof (Qlt_floor x) as H.
  rewrite inject_Z_plus in H. exact H.
Qed.

Lemma floor_between (x : Q) (a b : Z) :
  inject_Z a <= x -> x < inject_Z b + 1 -> (a <= Qfloor x <= b)%Z.
Proof.
  intros Ha Hb. destruct (floor_bounds x) as [L U].
  split.
  - rewrite <- (Qfloor_Z a). now apply Qfloor_resp_le.
  - assert (H : inject_Z (Qfloor x) < inject_Z (b + 1)).
    { rewrite inject_Z_plus. change (inject_Z 1) with 1.
      eapply Qle_lt_trans; [exact L | exact Hb]. }
    rewrite <- Zlt_Qlt in H. lia.
Qed.

Lemma truncQ_nonneg (x : Q) : 0 <= x -> truncQ x = Qfloor x.
Proof.
  intro H. unfold truncQ.
  apply Qle_bool_iff in H. now rewrite H.
Qed.

Lemma hourOfDay_range (q : Q) :
  0 <= q ->
  hourOfDay q == q - 24 * inject_Z (Qfloor (q / 24))
  /\ 0 <= hourOfDay q /\ hourOfDay q < 24.
Proof.
  intro H. unfold hourOfDay, remQ.
  assert (X : 24 * (q / 24) == q) by (apply Qmult_div_r; discriminate).
  destruct (floor_bounds (q / 24)) as [L U].
  assert (D : 0 <= q / 24) by (set (x := q / 24) in *; clearbody x; lra).
  rewrite (truncQ_nonneg _ D).
  set (k := inject_Z _) in *. clearbody k.
  set (x := q / 24) in *. clearbody x.
  repeat split; lra.
Qed.

Lemma hhOf_range (q : Q) : 0 <= q -> (0 <= hhOf q <= 23)%Z.
Proof.
  intro H. destruct (hourOfDay_range q H) as (_ & L & U).
  unfold hhOf, floorQ. apply floor_between; unfold inject_Z; lra.
Qed.

(** The minutes lie between 0 and 60, both included. *)
Lemma mmOf_range (q : Q) : 0 <= q -> (0 <= mmOf q <= 60)%Z.
Proof.
  intro H. destruct (hourOfDay_range q H) as (_ & L & U).
  unfold mmOf, roundQ, remQ.
  set (h := hourOfDay q) in *. clearbody h.
  assert (X : 1 * (h / 1) == h) by (apply Qmult_div_r; discriminate).
  destruct (floor_bounds (h / 1)) as [L1 U1].
  assert (D : 0 <= h / 1) by (set (x := h / 1) in *; clearbody x; lra).
  rewrite (truncQ_nonneg _ D).
  set (k := inject_Z _) in *. clearbody k.
  set (x := h / 1) in *. clearbody x.
  apply floor_between; unfold inject_Z; lra.
Qed.

Lemma formatTripTime_finite (q : Q) (separator : string) :
  ~ q == 0 ->
  formatTripTime (VNum (Fin q)) separator
  = ("Day " ++ intToString (Qfloor (q / 24) + 1) ++ separator
      ++ padStart2 (intToString (hhOf q)) ++ ":"
      ++ padStart2 (intToString (mmOf q)))%string.
Proof.
  intro H. unfold formatTripTime, or. simpl.
  destruct (Qeq_bool q 0) eqn:E; [apply Qeq_bool_iff in E; tauto |].
  reflexivity.
Qed.

Lemma formatTripTime_zero (q : Q) (separator : string) :
  q == 0 ->
  formatTripTime (VNum (Fin q)) separator
  = ("Day 1" ++ separator ++ "00:00")%string.
Proof.
  intro H. unfold formatTripTime, or. simpl.
  apply Qeq_bool_iff in H. rewrite H. reflexivity.
Qed.

(** C6, at the failing input.  For the hour 0.9999 the minutes are
    [Math.round(59.994)], which is 60, and nothing carries them into the
    hour: the time of day printed is 00:60.  The same happens in the last
    half minute of every hour. *)
Theorem minutes_reach_sixty :
  formatTripTime (VNum (Fin (9999 # 10000))) ", " = "Day 1, 00:60"%string
  /\ formatTripTime (VNum (Fin (479999 # 10000))) ", " = "Day 2, 23:60"%string
  /\ mmOf (9999 # 10000) = 60%Z.
Proof. repeat split; vm_compute; reflexivity. Qed.

Example formatTripTime_examples :
  formatTripTime (VNum (Fin (495 # 10))) ", " = "Day 3, 01:30"%string
  /\ formatTripTime (VNum (Fin 0)) " " = "Day 1 00:00"%string
  /\ formatTripTime (VStr "26.25") ", " = "Day 2, 02:15"%string
  /\ formatTripTime VUndefined ", " = "Day 1, 00:00"%string.
Proof. repeat split; vm_compute; reflexivity. Qed.

(* ---------------------------------------------------------------- *)
(** *** Hours that fall on a whole minute *)

Lemma floor_unique (x : Q) (z : Z) :
  inject_Z z <= x -> x < inject_Z z + 1 -> Qfloor x = z.
Proof.
  intros L U. pose proof (floor_between x z z L U). lia.
Qed.

Lemma inject_Z_bounds (z lo hi : Z) :
  (lo <= z <= hi)%Z -> lo # 1 <= inject_Z z /\ inject_Z z <= hi # 1.
Proof.
  intros [L U]. change (lo # 1) with (inject_Z lo).
  change (hi # 1) with (inject_Z hi). split; now rewrite <- Zle_Qle.
Qed.

Lemma inject_Z_zero (z : Z) : inject_Z z == 0 -> z = 0%Z.
Proof. unfold Qeq. simpl. lia. Qed.

(** The parts of the text, for an hour [q] that is [d] days, [H] hours and
    [M] minutes. *)
Lemma parts_of_whole_minutes (q : Q) (d H M : Z) :
  (0 <= d)%Z -> (0 <= H <= 23)%Z -> (0 <= M <= 59)%Z ->
  q == 24 * inject_Z d + inject_Z H + inject_Z M / 60 ->
  dayOf q = (d + 1)%Z /\ hhOf q = H /\ mmOf q = M.
Proof.
  intros Hd HH HM E.
  destruct (inject_Z_bounds d 0 d (conj Hd (Z.le_refl d))) as [D0 _].
  destruct (inject_Z_bounds H 0 23 HH) as [H0 H23].
  destruct (inject_Z_bounds M 0 59 HM) as [M0 M59].
  assert (X : 24 * (q / 24) == q) by (apply Qmult_div_r; discriminate).
  assert (Y : 60 * (inject_Z M / 60) == inject_Z M)
    by (apply Qmult_div_r; discriminate).
  assert (F : Qfloor (q / 24) = d).
  { apply floor_unique;
      set (dq := inject_Z d) in *; set (hq := inject_Z H) in *;
      set (mq := inject_Z M) in *; set (m := mq / 60) in *;
      set (x := q / 24) in *; clearbody dq hq mq m x; lra. }
  assert (T : truncQ (q / 24) = d).
  { rewrite truncQ_nonneg; [exact F |].
    set (dq := inject_Z d) in *; set (hq := inject_Z H) in *;
      set (mq := inject_Z M) in *; set (m := mq / 60) in *;
      set (x := q / 24) in *; clearbody dq hq mq m x; lra. }
  assert (HD : hourOfDay q == inject_Z H + inject_Z M / 60).
  { unfold hourOfDay, remQ. rewrite T.
    set (dq := inject_Z d) in *; set (hq := inject_Z H) in *;
      set (mq := inject_Z M) in *; set (m := mq / 60) in *;
      clearbody dq hq mq m; lra. }
  split; [unfold dayOf, floorQ; now rewrite F |].
  set (h := hourOfDay q) in *.
  assert (Z1 : 1 * (h / 1) == h) by (apply Qmult_div_r; discriminate).
  assert (FH : Qfloor h = H).
  { apply floor_unique;
      set (hq := inject_Z H) in *; set (mq := inject_Z M) in *;
      set (m := mq / 60) in *; clearbody h hq mq m; lra. }
  assert (FH1 : truncQ (h / 1) = H).
  { rewrite truncQ_nonneg.
    - apply floor_unique;
        set (hq := inject_Z H) in *; set (mq := inject_Z M) in *;
        set (m := mq / 60) in *; set (x := h / 1) in *;
        clearbody h hq mq m x; lra.
    - set (hq := inject_Z H) in *; set (mq := inject_Z M) in *;
        set (m := mq / 60) in *; set (x := h / 1) in *;
        clearbody h hq mq m x; lra. }
  split; [exact FH |].
  unfold mmOf, roundQ, remQ. fold h. rewrite FH1.
  apply floor_unique;
    set (hq := inject_Z H) in *; set (mq := inject_Z M) in *;
    set (m := mq / 60) in *; clearbody h hq mq m; lra.
Qed.

Lemma formatTripTime_at (q : Q) (d H M : Z) (separator : string) :
  (0 <= d)%Z -> (0 <= H <= 23)%Z -> (0 <= M <= 59)%Z ->
  q == 24 * inject_Z d + inject_Z H + inject_Z M / 60 ->
  formatTripTime (VNum (Fin q)) separator
  = ("Day " ++ intToString (d + 1) ++ separator
      ++ padStart2 (intToString H) ++ ":" ++ padStart2 (intToString M))%string.
Proof.
  intros Hd HH HM E.
  destruct (parts_of_whole_minutes q d H M Hd HH HM E) as (P1 & P2 & P3).
  destruct (Qeq_bool q 0) eqn:Z.
  - apply Qeq_bool_iff in Z.
    destruct (parts_of_whole_minutes 0 d H M Hd HH HM) as (Q1 & Q2 & Q3);
      [now rewrite <- Z |].
    rewrite (formatTripTime_zero q separator Z).
    rewrite <- Q1, <- Q2, <- Q3. reflexivity.
  - assert (NZ : ~ q == 0)
      by (intro Q0; apply Qeq_bool_iff in Q0; congruence).
    rewrite (formatTripTime_finite q separator NZ).
    fold (floorQ (q / 24)). fold (dayOf q). now rewrite P1, P2, P3.
Qed.

(** X10.  An hour that is [d] whole days, [H] hours and [M] minutes is
    printed as day [d + 1] with [H] and [M] on two digits each: on
    whole-minute hours nothing is lost and nothing is rounded. *)
Theorem formatTripTime_whole_minutes (d H M : Z) (separator : string) :
  (0 <= d)%Z -> (0 <= H <= 23)%Z -> (0 <= M <= 59)%Z ->
  formatTripTime
    (VNum (Fin (24 * inject_Z d + inject_Z H + inject_Z M / 60))) separator
  = ("Day " ++ intToString (d + 1) ++ separator
      ++ padStart2 (intToString H) ++ ":" ++ padStart2 (intToString M))%string.
Proof.
  intros Hd HH HM. apply formatTripTime_at; try assumption. reflexivity.
Qed.

Lemma formatTripTime_whole_minutes_witness :
  formatTripTime
    (VNum (Fin (24 * inject_Z 2 + inject_Z 7 + inject_Z 5 / 60))) ", "
  = ("Day " ++ intToString (2 + 1) ++ ", "
      ++ padStart2 (intToString 7) ++ ":" ++ padStart2 (intToString 5))%string.
Proof.
  apply (formatTripTime_whole_minutes 2 7 5 ", "); lia.
Defined.

(* ---------------------------------------------------------------- *)
(** *** The shape of the text *)

(** The two decimal digits of a number below 100. *)
Definition twoDigits (n : Z) : string :=
  String (ascii_of_N (48 + Z.to_N (n / 10)))
         (String (ascii_of_N (48 + Z.to_N (n mod 10))) EmptyString).

Lemma padStart2_twoDigits (n : Z) :
  (0 <= n <= 99)%Z -> padStart2 (intToString n) = twoDigits n.
Proof.
  intro H.
  assert (A : forallb
                (fun k => String.eqb (padStart2 (intToString (Z.of_nat k)))
                                     (twoDigits (Z.of_nat k)))
                (seq 0 100) = true) by (vm_compute; reflexivity).
  rewrite forallb_forall in A.
  specialize (A (Z.to_nat n)).
  rewrite Z2Nat.id in A by lia.
  apply String.eqb_eq, A, in_seq. lia.
Qed.

Lemma dayOf_positive (q : Q) : 0 <= q -> (1 <= dayOf q)%Z.
Proof.
  intro H. unfold dayOf, floorQ.
  assert (X : 24 * (q / 24) == q) by (apply Qmult_div_r; discriminate).
  assert (F : (0 <= Qfloor (q / 24))%Z).
  { rewrite <- (Qfloor_Z 0). apply Qfloor_resp_le.
    set (x := q / 24) in *. clearbody x. unfold inject_Z. lra. }
  lia.
Qed.

(** X11.  For every hour that is not negative the text is "Day", a day
    number that is at least 1, the separator, and a time of day of exactly
    five characters: two digits of an hour from 00 to 23, a colon, and two
    digits of minutes from 00 to 60. *)
Theorem formatTripTime_shape (q : Q) (separator : string) :
  0 <= q ->
  exists day hh mm,
    (1 <= day)%Z /\ (0 <= hh <= 23)%Z /\ (0 <= mm <= 60)%Z
    /\ formatTripTime (VNum (Fin q)) separator
       = ("Day " ++ intToString day ++ separator
           ++ twoDigits hh ++ ":" ++ twoDigits mm)%string.
Proof.
  intro H. destruct (Qeq_bool q 0) eqn:Z.
  - apply Qeq_bool_iff in Z. exists 1%Z, 0%Z, 0%Z.
    repeat split; try lia.
    now rewrite (formatTripTime_zero q separator Z).
  - assert (NZ : ~ q == 0)
      by (intro Q0; apply Qeq_bool_iff in Q0; congruence).
    pose proof (hhOf_range q H) as Hh.
    pose proof (mmOf_range q H) as Hm.
    exists (dayOf q), (hhOf q), (mmOf q).
    split; [apply dayOf_positive, H |].
    split; [exact Hh |]. split; [exact Hm |].
    rewrite (formatTripTime_finite q separator NZ).
    rewrite !padStart2_twoDigits by lia. reflexivity.
Qed.

Lemma formatTripTime_shape_witness :
  exists day hh mm,
    (1 <= day)%Z /\ (0 <= hh <= 23)%Z /\ (0 <= mm <= 60)%Z
    /\ formatTripTime (VNum (Fin (3125 # 100))) ", "
       = ("Day " ++ intToString day ++ ", "
           ++ twoDigits hh ++ ":" ++ twoDigits mm)%string.
Proof.
  apply (formatTripTime_shape (3125 # 100) ", "). discriminate.
Defined.

(* ---------------------------------------------------------------- *)
(** *** [formatHourLabel] *)

(** [a % b] on numbers: [NaN] when [a] is infinite or [b] is zero, [a]
    itself when [b] is infinite. *)
Definition rem (a b : number) : number :=
  match a, b with
  | Fin x, Fin y => if Qeq_bool y 0 then NaN else Fin (remQ x y)
  | Fin x, (PosInf | NegInf) => Fin x
  | _, _ => NaN
  end.

(** The text of a number in a template, for the numbers that are integers
    or not finite.  The decimal expansion of a fraction is not modelled:
    there the result is [None]. *)
Definition numberText (n : number) : option string :=
  match n with
  | Fin q =>
      if Qeq_bool (inject_Z (Qfloor q)) q
      then Some (intToString (Qfloor q)) else None
  | NaN => Some "NaN"%string
  | PosInf => Some "Infinity"%string
  | NegInf => Some "-Infinity"%string
  end.

(** [formatHourLabel(hour)], wherever the text of [numeric % 12 || 12] is
    that of an integer. *)
Definition formatHourLabel (hour : value) : option string :=
  let numeric := or (Number hour) (Fin 0) in
  if strictEq numeric (Fin 0) || strictEq numeric (Fin 24)
  then Some "Midnight"%string
  else if strictEq numeric (Fin 12) then Some "Noon"%string
  else
    match numberText (or (rem numeric (Fin 12)) (Fin 12)) with
    | Some text =>
        Some (text ++ (if ltb numeric (Fin 12) then "a" else "p"))%string
    | None => None
    end.

(** The label of the whole hour [h] of a day. *)
Definition hourLabel (h : Z) : string :=
  if ((h =? 0) || (h =? 24))%Z then "Midnight"%string
  else if (h =? 12)%Z then "Noon"%string
  else (intToString (h mod 12) ++ (if (h <? 12)%Z then "a" else "p"))%string.

Lemma formatHourLabel_of_hour (h : Z) :
  (0 <= h <= 24)%Z ->
  formatHourLabel (VNum (Fin (inject_Z h))) = Some (hourLabel h).
Proof.
  intro H.
  assert (A : forallb
                (fun k =>
                   match formatHourLabel (VNum (Fin (inject_Z (Z.of_nat k)))) with
                   | Some t => String.eqb t (hourLabel (Z.of_nat k))
                   | None => false
                   end)
                (seq 0 25) = true) by (vm_compute; reflexivity).
  rewrite forallb_forall in A.
  specialize (A (Z.to_nat h)).
  rewrite Z2Nat.id in A by lia.
  destruct (formatHourLabel (VNum (Fin (inject_Z h)))) as [t |].
  - f_equal. apply String.eqb_eq, A, in_seq. lia.
  - discriminate A. apply in_seq. lia.
Qed.

(** X12.  On the 25 whole hours from 0 to 24, [formatHourLabel] answers
    "Midnight" at 0 and at 24, "Noon" at 12, and everywhere else the hour
    on the 12-hour clock, from 1 to 11, followed by "a" before noon and by
    "p" after it. *)
Theorem formatHourLabel_whole_hours (h : Z) :
  (0 <= h <= 24)%Z ->
  formatHourLabel (VNum (Fin (inject_Z h))) = Some (hourLabel h)
  /\ (h <> 0%Z -> h <> 12%Z -> h <> 24%Z -> (1 <= h mod 12 <= 11)%Z).
Proof.
  intro H. split; [apply formatHourLabel_of_hour, H |].
  intros N0 N12 N24.
  assert (C : (h mod 12 = 0 -> h = 0 \/ h = 12 \/ h = 24)%Z).
  { intro M. pose proof (Z.div_mod h 12). nia. }
  pose proof (Z.mod_pos_bound h 12). lia.
Qed.

Lemma formatHourLabel_whole_hours_witness :
  formatHourLabel (VNum (Fin (inject_Z 18))) = Some (hourLabel 18)
  /\ (18%Z <> 0%Z -> 18%Z <> 12%Z -> 18%Z <> 24%Z -> (1 <= 18 mod 12 <= 11)%Z).
Proof.
  apply (formatHourLabel_whole_hours 18). lia.
Defined.

End Time.

(* ================================================================== *)
(** ** components/ELDLogPage.jsx: the day-log periods *)
(* ================================================================== *)

Module ELDLog.

Import JS.

(** The keys of [STATUS_ROWS], which are the own properties of
    [STATUS_BY_KEY]. *)
Definition STATUS_ROWS : list string :=
  ["off_duty"; "sleeper"; "driving"; "on_duty_not_driving"]%string.

(** [STATUS_BY_KEY] is built by [reduce] on an object literal [{}], so it
    also answers to the property names it inherits from [Object.prototype];
    each of them holds a function or an object. *)
Definition Object_prototype : list string :=
  ["constructor"; "toString"; "toLocaleString"; "valueOf"; "hasOwnProperty";
   "isPrototypeOf"; "propertyIsEnumerable"; "__proto__";
   "__defineGetter__"; "__defineSetter__";
   "__lookupGetter__"; "__lookupSetter__"]%string.

Definition mem (k : string) (l : list string) : bool :=
  existsb (String.eqb k) l.

Definition ownStatus (k : string) : bool := mem k STATUS_ROWS.
Definition inheritedKey (k : string) : bool := mem k Object_prototype.

(** Whether [STATUS_BY_KEY[k]] is truthy: a row object for an own key, the
    inherited member otherwise, [undefined] when there is neither. *)
Definition STATUS_BY_KEY_truthy (k : string) : bool :=
  ownStatus k || inheritedKey k.

(** A period of a day log as the plan carries it. *)
Record period : Type := mkPeriod {
  status : string;
  start_hour_of_day : value;
  end_hour_of_day : value
}.

(** A period as [normalizePeriods] holds and returns it:
    [{ start, end, status }]. *)
Record span : Type := mkSpan {
  start : Q;
  end_ : Q;
  span_status : string
}.

(** [Math.max(0, Math.min(24, Number(hour) || 0))], on numbers. *)
Definition clampHour_number (hour : value) : number :=
  Math_max (Fin 0) (Math_min (Fin 24) (or (Number hour) (Fin 0))).

(** [clampHour]: the result is always finite, so it is kept as a rational
    (see [clampHour_number_Fin]). *)
Definition clampHour (hour : value) : Q :=
  match clampHour_number hour with
  | Fin q => q
  | _ => 0
  end.

(** The body of the [forEach] of [normalizePeriods]: what one input period
    pushes onto [normalized]. *)
Definition pushed (p : period) : list span :=
  if STATUS_BY_KEY_truthy (status p) then
    let s := clampHour (start_hour_of_day p) in
    let e := clampHour (end_hour_of_day p) in
    if Qltb s e then [mkSpan s e (status p)]
    else
      (if Qltb s 24 then [mkSpan s 24 (status p)] else [])
      ++ (if Qltb 0 e then [mkSpan 0 e (status p)] else [])
  else [].

Definition normalized (periods : list period) : list span :=
  flat_map pushed periods.

(** The comparator [(a, b) => a.start - b.start || a.end - b.end]. *)
Definition compareSpans (a b : span) : Q :=
  let d := start a - start b in
  if Qeq_bool d 0 then end_ a - end_ b else d.

(** [Array.prototype.sort] is stable: an element stays before the later
    ones it does not compare greater than. *)
Fixpoint insertSpan (x : span) (l : list span) : list span :=
  match l with
  | [] => [x]
  | y :: l' =>
      if Qle_bool (compareSpans x y) 0 then x :: l
      else y :: insertSpan x l'
  end.

Definition sortSpans (l : list span) : list span :=
  fold_right insertSpan [] l.

Definition maxQ (a b : Q) : Q := if Qltb a b then b else a.

Definition off (a b : Q) : span := mkSpan a b "off_duty".

(** The [for ... of] loop with its [cursor], and the trailing padding. *)
Fixpoint withFullDayCoverage (cursor : Q) (sorted : list span) : list span :=
  match sorted with
  | [] => if Qltb cursor 24 then [off cursor 24] else []
  | p :: rest =>
      let s := maxQ cursor (start p) in
      let e := maxQ s (end_ p) in
      (if Qltb cursor s then [off cursor s] else [])
      ++ (if Qltb s e
          then mkSpan s e (span_status p) :: withFullDayCoverage e rest
          else withFullDayCoverage cursor rest)
  end.

Definition normalizePeriods (periods : list period) : list span :=
  match sortSpans (normalized periods) with
  | [] => [off 0 24]
  | sorted => withFullDayCoverage 0 sorted
  end.

(** The accumulator of [totalsFromPeriods]: its four own number properties.
    A write under any other key leaves these four as they are. *)
Record totals : Type := mkTotals {
  off_duty : Q;
  sleeper : Q;
  driving : Q;
  on_duty_not_driving : Q
}.

Definition addTo (acc : totals) (key : string) (duration : Q) : totals :=
  if String.eqb key "off_duty" then
    mkTotals (off_duty acc + duration) (sleeper acc) (driving acc)
             (on_duty_not_driving acc)
  else if String.eqb key "sleeper" then
    mkTotals (off_duty acc) (sleeper acc + duration) (driving acc)
             (on_duty_not_driving acc)
  else if String.eqb key "driving" then
    mkTotals (off_duty acc) (sleeper acc) (driving acc + duration)
             (on_duty_not_driving acc)
  else if String.eqb key "on_duty_not_driving" then
    mkTotals (off_duty acc) (sleeper acc) (driving acc)
             (on_duty_not_driving acc + duration)
  else acc.

Definition totalsFromPeriods (periods : list span) : totals :=
  fold_left
    (fun acc p => addTo acc (span_status p) (maxQ 0 (end_ p - start p)))
    periods (mkTotals 0 0 0 0).

(** The four totals added up. *)
Definition totalHours (t : totals) : Q :=
  off_duty t + sleeper t + driving t + on_duty_not_driving t.

(** *** Comparisons on [Q] *)

Lemma Qltb_lt (a b : Q) : Qltb a b = true <-> a < b.
Proof.
  unfold Qltb. rewrite negb_true_iff.
  split; intro H.
  - destruct (Qlt_le_dec a b) as [L | L]; [exact L |].
    apply Qle_bool_iff in L. congruence.
  - destruct (Qle_bool b a) eqn:E; [| reflexivity].
    apply Qle_bool_iff in E. lra.
Qed.

Lemma Qltb_ge (a b : Q) : Qltb a b = false <-> b <= a.
Proof.
  unfold Qltb. rewrite negb_false_iff. apply Qle_bool_iff.
Qed.

Ltac qcases :=
  repeat match goal with
  | |- context [Qltb ?a ?b] =>
      let E := fresh "E" in
      destruct (Qltb a b) eqn:E;
      [apply Qltb_lt in E | apply Qltb_ge in E]
  | H : context [Qltb ?a ?b] |- _ =>
      let E := fresh "E" in
      destruct (Qltb a b) eqn:E;
      [apply Qltb_lt in E | apply Qltb_ge in E]
  end.

Lemma maxQ_cases (a b : Q) :
  (a < b /\ maxQ a b = b) \/ (b <= a /\ maxQ a b = a).
Proof. unfold maxQ. qcases; auto. Qed.

(** *** [clampHour] *)

Lemma clampHour_number_Fin (hour : value) :
  clampHour_number hour = Fin (clampHour hour).
Proof.
  unfold clampHour, clampHour_number, or, Math_max, Math_min.
  destruct (Number hour) as [q | | |]; simpl;
    repeat (qcases; simpl); try reflexivity;
    destruct (Qeq_bool q 0); simpl; repeat (qcases; simpl); reflexivity.
Qed.

Lemma clampHour_range (hour : value) :
  0 <= clampHour hour /\ clampHour hour <= 24.
Proof.
  unfold clampHour, clampHour_number, or, Math_max, Math_min.
  destruct (Number hour) as [q | | |]; simpl;
    repeat (qcases; simpl); try lra;
    destruct (Qeq_bool q 0); simpl; repeat (qcases; simpl); lra.
Qed.

(** *** Well-formed spans *)

Definition wellFormed (p : span) : Prop :=
  0 <= start p /\ start p < end_ p /\ end_ p <= 24.

Lemma pushed_wellFormed (p : period) : Forall wellFormed (pushed p).
Proof.
  unfold pushed.
  pose proof (clampHour_range (start_hour_of_day p)) as [Hs0 Hs24].
  pose proof (clampHour_range (end_hour_of_day p)) as [He0 He24].
  destruct (STATUS_BY_KEY_truthy (status p)); [| constructor].
  cbv zeta. qcases; simpl;
    repeat constructor; unfold wellFormed; simpl; lra.
Qed.

Lemma normalized_wellFormed (periods : list period) :
  Forall wellFormed (normalized periods).
Proof.
  unfold normalized. induction periods as [| p ps IH]; simpl.
  - constructor.
  - apply Forall_app. split; [apply pushed_wellFormed | exact IH].
Qed.

Lemma insertSpan_In (x y : span) (l : list span) :
  In y (insertSpan x l) <-> y = x \/ In y l.
Proof.
  induction l as [| z l IH]; simpl.
  - intuition.
  - destruct (Qle_bool (compareSpans x z) 0); simpl.
    + intuition.
    + rewrite IH. intuition.
Qed.

Lemma sortSpans_In (y : span) (l : list span) :
  In y (sortSpans l) <-> In y l.
Proof.
  induction l as [| x l IH]; simpl.
  - tauto.
  - rewrite insertSpan_In, IH. intuition.
Qed.

Lemma sortSpans_Forall (P : span -> Prop) (l : list span) :
  Forall P l -> Forall P (sortSpans l).
Proof.
  rewrite !Forall_forall. intros H y Hy. apply H, sortSpans_In, Hy.
Qed.

(** *** Chains: spans laid end to end from [a] to [b] *)

Fixpoint chain (a : Q) (l : list span) (b : Q) : Prop :=
  match l with
  | [] => a == b
  | p :: l' => start p == a /\ start p < end_ p /\ chain (end_ p) l' b
  end.

Lemma chain_le (l : list span) : forall a b, chain a l b -> a <= b.
Proof.
  induction l as [| p l IH]; simpl; intros a b H.
  - lra.
  - destruct H as (H1 & H2 & H3). apply IH in H3. lra.
Qed.

Lemma withFullDayCoverage_chain (sorted : list span) :
  Forall wellFormed sorted ->
  forall cursor, 0 <= cursor -> cursor <= 24 ->
  chain cursor (withFullDayCoverage cursor sorted) 24.
Proof.
  induction 1 as [| p rest (Hp0 & Hp1 & Hp2) _ IH]; intros cursor H0 H24; simpl.
  - qcases; simpl; lra.
  - destruct (maxQ_cases cursor (start p)) as [[L1 ->] | [L1 ->]];
      [destruct (maxQ_cases (start p) (end_ p)) as [[L2 ->] | [L2 ->]]
      | destruct (maxQ_cases cursor (end_ p)) as [[L2 ->] | [L2 ->]]];
      qcases; simpl; try lra;
      repeat split; try lra; try reflexivity; apply IH; lra.
Qed.

Lemma normalizePeriods_chain (periods : list period) :
  chain 0 (normalizePeriods periods) 24 /\ normalizePeriods periods <> [].
Proof.
  unfold normalizePeriods.
  pose proof (sortSpans_Forall _ _ (normalized_wellFormed periods)) as W.
  destruct (sortSpans (normalized periods)) as [| p rest] eqn:E.
  - simpl. split; [lra | discriminate].
  - split.
    + apply withFullDayCoverage_chain; [exact W | lra | lra].
    + inversion W as [| ? ? (Hp0 & Hp1 & Hp2) _]; subst.
      simpl.
      destruct (maxQ_cases 0 (start p)) as [[L1 ->] | [L1 ->]];
        [destruct (maxQ_cases (start p) (end_ p)) as [[L2 ->] | [L2 ->]]
        | destruct (maxQ_cases 0 (end_ p)) as [[L2 ->] | [L2 ->]]];
        qcases; simpl; try lra; discriminate.
Qed.

Lemma chain_bounds (l : list span) : forall a b,
  chain a l b ->
  Forall (fun p => a <= start p /\ start p < end_ p /\ end_ p <= b) l.
Proof.
  induction l as [| p l IH]; simpl; intros a b H.
  - constructor.
  - destruct H as (H1 & H2 & H3).
    pose proof (chain_le _ _ _ H3) as Hle.
    constructor; [lra |].
    eapply Forall_impl; [| apply IH, H3].
    simpl. intros q (Q1 & Q2 & Q3). lra.
Qed.

Lemma chain_adjacent (front : list span) : forall a b p q back,
  chain a (front ++ p :: q :: back) b -> start q == end_ p.
Proof.
  induction front as [| x front IH]; simpl; intros a b p q back H.
  - tauto.
  - destruct H as (_ & _ & H). eapply IH, H.
Qed.

Lemma chain_last (front : list span) : forall a b p,
  chain a (front ++ [p]) b -> end_ p == b.
Proof.
  induction front as [| x front IH]; simpl; intros a b p H.
  - tauto.
  - destruct H as (_ & _ & H). eapply IH, H.
Qed.

(** The day is partitioned: every span lies in the day and is not empty,
    the first starts at 0, the last ends at 24, and each one starts where
    the one before it ends. *)
Definition partitionOfDay (l : list span) : Prop :=
  Forall (fun p => 0 <= start p /\ start p < end_ p /\ end_ p <= 24) l
  /\ (exists p rest, l = p :: rest /\ start p == 0)
  /\ (exists front p, l = front ++ [p] /\ end_ p == 24)
  /\ (forall front p q back,
        l = front ++ p :: q :: back -> start q == end_ p).

Lemma chain_partitionOfDay (l : list span) :
  chain 0 l 24 -> l <> [] -> partitionOfDay l.
Proof.
  intros C NE. repeat split.
  - apply chain_bounds, C.
  - destruct l as [| p rest]; [congruence |].
    exists p, rest. simpl in C. tauto.
  - destruct (exists_last NE) as (front & p & ->).
    exists front, p. split; [reflexivity | eapply chain_last, C].
  - intros front p q back ->. eapply chain_adjacent, C.
Qed.

(** *** Statuses of the emitted spans *)

Definition ownSpan (p : span) : Prop := ownStatus (span_status p) = true.

Lemma pushed_ownSpan (p : period) :
  inheritedKey (status p) = false -> Forall ownSpan (pushed p).
Proof.
  intro H. unfold pushed, STATUS_BY_KEY_truthy. rewrite H, orb_false_r.
  destruct (ownStatus (status p)) eqn:E; [| constructor].
  cbv zeta.
  repeat match goal with
         | |- context [if ?c then _ else _] => destruct c
         end; simpl; repeat constructor; exact E.
Qed.

Lemma normalized_ownSpan (periods : list period) :
  Forall (fun p => inheritedKey (status p) = false) periods ->
  Forall ownSpan (normalized periods).
Proof.
  unfold normalized. induction 1 as [| p ps Hp _ IH]; simpl.
  - constructor.
  - apply Forall_app. split; [apply pushed_ownSpan, Hp | exact IH].
Qed.

Lemma withFullDayCoverage_ownSpan (sorted : list span) :
  Forall ownSpan sorted ->
  forall cursor, Forall ownSpan (withFullDayCoverage cursor sorted).
Proof.
  induction 1 as [| p rest Hp _ IH]; intro cursor; simpl.
  - destruct (Qltb cursor 24); repeat constructor.
  - apply Forall_app. split.
    + destruct (Qltb cursor (maxQ cursor (start p))); repeat constructor.
    + destruct (Qltb _ _); [constructor; [exact Hp |] |]; apply IH.
Qed.

Lemma normalizePeriods_ownSpan (periods : list period) :
  Forall (fun p => inheritedKey (status p) = false) periods ->
  Forall ownSpan (normalizePeriods periods).
Proof.
  intro H. unfold normalizePeriods.
  pose proof (sortSpans_Forall _ _ (normalized_ownSpan _ H)) as W.
  destruct (sortSpans (normalized periods)) as [| p rest].
  - repeat constructor.
  - apply withFullDayCoverage_ownSpan, W.
Qed.

(** *** Totals *)

Lemma addTo_totalHours (acc : totals) (key : string) (duration : Q) :
  ownStatus key = true ->
  totalHours (addTo acc key duration) == totalHours acc + duration.
Proof.
  unfold ownStatus, mem, STATUS_ROWS. simpl.
  rewrite !orb_true_iff.
  intros [H | [H | [H | [H | H]]]]; try discriminate;
    apply String.eqb_eq in H; subst key;
    unfold addTo, totalHours; simpl; ring.
Qed.

Lemma chain_totalHours (l : list span) : forall a b acc,
  chain a l b -> Forall ownSpan l ->
  totalHours
    (fold_left
       (fun acc p => addTo acc (span_status p) (maxQ 0 (end_ p - start p)))
       l acc)
  == totalHours acc + (b - a).
Proof.
  induction l as [| p l IH]; simpl; intros a b acc C O.
  - lra.
  - destruct C as (C1 & C2 & C3).
    inversion O as [| ? ? Op Ol]; subst.
    rewrite (IH _ _ _ C3 Ol), (addTo_totalHours _ _ _ Op).
    destruct (maxQ_cases 0 (end_ p - start p)) as [[L ->] | [L ->]]; lra.
Qed.

(** *** The claims on [normalizePeriods] and [totalsFromPeriods] *)

(** C2.  Whatever the input periods are, [normalizePeriods] returns a
    partition of the day: every emitted period has
    [0 <= start < end <= 24], the first one starts at 0, the last one ends
    at 24, and each period starts where the previous one ends. *)
Theorem normalizePeriods_partitions_day (periods : list period) :
  partitionOfDay (normalizePeriods periods).
Proof.
  destruct (normalizePeriods_chain periods) as [C NE].
  apply chain_partitionOfDay; assumption.
Qed.

(** C1, amended.  When no input status is a property name inherited from
    [Object.prototype], the four totals of the normalised periods add up to
    24 hours, the durations being added exactly. *)
Theorem totals_sum_to_24_exact (periods : list period) :
  Forall (fun p => inheritedKey (status p) = false) periods ->
  totalHours (totalsFromPeriods (normalizePeriods periods)) == 24.
Proof.
  intro H. unfold totalsFromPeriods.
  destruct (normalizePeriods_chain periods) as [C _].
  rewrite (chain_totalHours _ _ _ _ C (normalizePeriods_ownSpan _ H)).
  unfold totalHours. simpl. lra.
Qed.

Definition sampleDay : list period :=
  [ mkPeriod "driving" (VNum (Fin 6)) (VNum (Fin (23 # 2)));
    mkPeriod "sleeper" (VNum (Fin 22)) (VNum (Fin 2));
    mkPeriod "on_duty_not_driving" (VNum (Fin 5)) (VNum (Fin (13 # 2)));
    mkPeriod "yard_move" (VNum (Fin 12)) (VNum (Fin 13)) ].

Lemma totals_sum_to_24_exact_witness :
  Forall (fun p => inheritedKey (status p) = false) sampleDay
  /\ totalHours (totalsFromPeriods (normalizePeriods sampleDay)) == 24.
Proof.
  assert (H : Forall (fun p => inheritedKey (status p) = false) sampleDay)
    by (repeat constructor).
  split; [exact H | exact (totals_sum_to_24_exact sampleDay H)].
Defined.

(** Periods whose status names no property of [STATUS_BY_KEY] take no part
    in the result. *)
Lemma normalized_filter (periods : list period) :
  normalized (filter (fun p => STATUS_BY_KEY_truthy (status p)) periods)
  = normalized periods.
Proof.
  unfold normalized.
  induction periods as [| p ps IH]; simpl; [reflexivity |].
  destruct (STATUS_BY_KEY_truthy (status p)) eqn:E; simpl.
  - now rewrite IH.
  - rewrite IH. unfold pushed. now rewrite E.
Qed.

Lemma normalizePeriods_ignores_unrecognised (periods : list period) :
  normalizePeriods periods
  = normalizePeriods
      (filter (fun p => STATUS_BY_KEY_truthy (status p)) periods).
Proof.
  unfold normalizePeriods. now rewrite normalized_filter.
Qed.

Lemma only_unrecognised_is_off_duty (periods : list period) :
  Forall (fun p => STATUS_BY_KEY_truthy (status p) = false) periods ->
  normalizePeriods periods = [off 0 24].
Proof.
  intro H. rewrite normalizePeriods_ignores_unrecognised.
  replace (filter _ periods) with (@nil period); [reflexivity |].
  induction H as [| p ps Hp _ IH]; simpl; [reflexivity |].
  now rewrite Hp.
Qed.

(** C10, at the failing input.  A period whose status is ["constructor"],
    which is none of the four duty statuses, is not dropped:
    [STATUS_BY_KEY["constructor"]] is the inherited [Object] function. *)
Theorem inherited_status_is_kept :
  ownStatus "constructor" = false
  /\ normalizePeriods
       [mkPeriod "constructor" (VNum (Fin 1)) (VNum (Fin 2))]
     = [off 0 1; mkSpan 1 2 "constructor"; off 2 24]
  /\ totalHours
       (totalsFromPeriods
          (normalizePeriods
             [mkPeriod "constructor" (VNum (Fin 1)) (VNum (Fin 2))]))
     == 23.
Proof.
  repeat split; vm_compute; reflexivity.
Qed.

(** *** Periods that end at or before their start *)

(** [l] holds a span from [s] to [e] with status [st]. *)
Definition emits (l : list span) (s e : Q) (st : string) : Prop :=
  exists q, In q l /\ start q == s /\ end_ q == e /\ span_status q = st.

(** C8 as it is worded: the two pieces of [p] are among the periods that
    [normalizePeriods] returns. *)
Definition splitAcrossMidnight (periods : list period) (p : period) : Prop :=
  let s := clampHour (start_hour_of_day p) in
  let e := clampHour (end_hour_of_day p) in
  (s < 24 -> emits (normalizePeriods periods) s 24 (status p))
  /\ (0 < e -> emits (normalizePeriods periods) 0 e (status p)).

Definition overnightUnknown : period :=
  mkPeriod "personal_conveyance" (VNum (Fin 22)) (VNum (Fin 2)).
Definition overnightSleeper : period :=
  mkPeriod "sleeper" (VNum (Fin 22)) (VNum (Fin 2)).
Definition allDayDriving : period :=
  mkPeriod "driving" (VNum (Fin 0)) (VNum (Fin 24)).

Lemma not_emits_cons (q : span) (l : list span) (s e : Q) (st : string) :
  ~ (start q == s /\ end_ q == e /\ span_status q = st) ->
  ~ emits l s e st -> ~ emits (q :: l) s e st.
Proof.
  intros H1 H2 (x & [<- | Hin] & Hx); [tauto |].
  apply H2. exists x. tauto.
Qed.

Lemma not_emits_nil (s e : Q) (st : string) : ~ emits [] s e st.
Proof. intros (x & [] & _). Qed.

(** C8 fails as worded: a period whose status [STATUS_BY_KEY] does not
    answer to is discarded whole, and the pieces of a period that is kept
    are clipped away where an earlier period already covers the hours. *)
Lemma midnight_split_not_in_result :
  (clampHour (end_hour_of_day overnightUnknown)
     <= clampHour (start_hour_of_day overnightUnknown)
   /\ ~ splitAcrossMidnight [overnightUnknown] overnightUnknown)
  /\ (clampHour (end_hour_of_day overnightSleeper)
        <= clampHour (start_hour_of_day overnightSleeper)
      /\ ~ splitAcrossMidnight [allDayDriving; overnightSleeper]
             overnightSleeper).
Proof.
  split; (split; [vm_compute; discriminate |]).
  - intros [H _].
    assert (L : clampHour (start_hour_of_day overnightUnknown) < 24)
      by (vm_compute; reflexivity).
    apply H in L. revert L.
    change (normalizePeriods [overnightUnknown]) with [off 0 24].
    apply not_emits_cons; [| apply not_emits_nil].
    simpl. intros (_ & _ & E). discriminate E.
  - intros [H _].
    assert (L : clampHour (start_hour_of_day overnightSleeper) < 24)
      by (vm_compute; reflexivity).
    apply H in L. revert L.
    change (normalizePeriods [allDayDriving; overnightSleeper])
      with [mkSpan 0 2 "sleeper"; mkSpan 2 24 "driving"].
    change (clampHour (start_hour_of_day overnightSleeper)) with 22.
    repeat apply not_emits_cons; try apply not_emits_nil; simpl.
    + intros (E & _). revert E. vm_compute. discriminate.
    + intros (_ & _ & E). discriminate E.
Qed.

Lemma Qeq_bool_false (a b : Q) : Qeq_bool a b = false -> ~ a == b.
Proof. intros H E. apply Qeq_bool_iff in E. congruence. Qed.

Lemma Qle_bool_false (a b : Q) : Qle_bool a b = false -> b < a.
Proof.
  intro H. destruct (Qlt_le_dec b a) as [L | L]; [exact L |].
  apply Qle_bool_iff in L. congruence.
Qed.

Lemma ownStatus_truthy (k : string) :
  ownStatus k = true -> STATUS_BY_KEY_truthy k = true.
Proof. unfold STATUS_BY_KEY_truthy. now intros ->. Qed.

(* ---------------------------------------------------------------- *)
(** *** Which status an hour of the day is given *)

(** [p] covers the instant [t]. *)
Definition covers (p : span) (t : Q) : Prop := start p <= t /\ t < end_ p.

Fixpoint sortedByStart (l : list span) : Prop :=
  match l with
  | [] => True
  | x :: rest => Forall (fun y => start x <= start y) rest /\ sortedByStart rest
  end.

Lemma compareSpans_le (x y : span) :
  Qle_bool (compareSpans x y) 0 = true -> start x <= start y.
Proof.
  unfold compareSpans. intro H.
  destruct (Qeq_bool (start x - start y) 0) eqn:E.
  - apply Qeq_bool_iff in E. lra.
  - apply Qle_bool_iff in H. lra.
Qed.

Lemma compareSpans_gt (x y : span) :
  Qle_bool (compareSpans x y) 0 = false -> start y <= start x.
Proof.
  unfold compareSpans. intro H. apply Qle_bool_false in H.
  destruct (Qeq_bool (start x - start y) 0) eqn:E.
  - apply Qeq_bool_iff in E. lra.
  - lra.
Qed.

Lemma insertSpan_sorted (x : span) (l : list span) :
  sortedByStart l -> sortedByStart (insertSpan x l).
Proof.
  induction l as [| y l IH]; simpl; intro S.
  - split; [constructor | exact I].
  - destruct S as [Sy Sl].
    destruct (Qle_bool (compareSpans x y) 0) eqn:E.
    + apply compareSpans_le in E. simpl. repeat split; try assumption.
      constructor; [exact E |].
      eapply Forall_impl; [| exact Sy]. simpl. intros z Hz. lra.
    + apply compareSpans_gt in E. simpl. split; [| apply IH, Sl].
      apply Forall_forall. intros z Hz.
      apply insertSpan_In in Hz. destruct Hz as [-> | Hz]; [exact E |].
      rewrite Forall_forall in Sy. apply Sy, Hz.
Qed.

Lemma sortSpans_sorted (l : list span) : sortedByStart (sortSpans l).
Proof.
  induction l as [| x l IH]; simpl; [exact I |].
  apply insertSpan_sorted, IH.
Qed.

(** The span of the output that holds [t] has the status of an input piece
    covering [t], or is padding where no piece covers [t]. *)
Definition statusFrom (pieces : list span) (q : span) (t : Q) : Prop :=
  (exists p, In p pieces /\ covers p t /\ span_status q = span_status p)
  \/ ((forall p, In p pieces -> ~ covers p t)
      /\ span_status q = "off_duty"%string).

Lemma withFullDayCoverage_statusFrom (sorted : list span) :
  Forall wellFormed sorted -> sortedByStart sorted ->
  forall cursor t,
    0 <= cursor -> cursor <= t -> t < 24 ->
    exists q,
      In q (withFullDayCoverage cursor sorted)
      /\ covers q t /\ statusFrom sorted q t.
Proof.
  induction 1 as [| p rest (Hp0 & Hp1 & Hp2) W IH];
    intros S cursor t H0 Hc Ht.
  - simpl. destruct (Qltb cursor 24) eqn:E;
      [| apply Qltb_ge in E; lra].
    exists (off cursor 24). split; [now left |].
    split; [unfold covers; simpl; lra |].
    right. split; [intros p [] | reflexivity].
  - destruct S as [Sp Sr]. rewrite Forall_forall in Sp.
    cbn [withFullDayCoverage].
    assert (A : forall c, 0 <= c -> c <= t ->
                (forall x, x = p -> ~ covers x t) ->
                exists q, In q (withFullDayCoverage c rest)
                          /\ covers q t /\ statusFrom (p :: rest) q t).
    { intros c C0 Ct NP.
      destruct (IH Sr c t C0 Ct Ht) as (q & Q1 & Q2 & Q3).
      exists q. split; [exact Q1 |]. split; [exact Q2 |].
      destruct Q3 as [(x & X1 & X2) | (N & O)].
      - left. exists x. split; [now right | exact X2].
      - right. split; [| exact O].
        intros x [<- | Hx]; [now apply NP | apply N, Hx]. }
    destruct (maxQ_cases cursor (start p)) as [[L1 E1] | [L1 E1]];
      rewrite E1.
    + (* a gap before [p] *)
      assert (G : Qltb cursor (start p) = true) by (apply Qltb_lt; lra).
      rewrite G.
      destruct (maxQ_cases (start p) (end_ p)) as [[L2 E2] | [L2 E2]];
        [| lra].
      rewrite E2.
      assert (G2 : Qltb (start p) (end_ p) = true) by (apply Qltb_lt; lra).
      rewrite G2.
      destruct (Qlt_le_dec t (start p)) as [Lts | Lst].
      * exists (off cursor (start p)).
        split; [now left |].
        split; [unfold covers; simpl; lra |].
        right. split; [| reflexivity].
        intros x [<- | Hx] [C1 C2]; [lra |].
        specialize (Sp x Hx). lra.
      * destruct (Qlt_le_dec t (end_ p)) as [Lte | Let].
        -- exists (mkSpan (start p) (end_ p) (span_status p)).
           split; [right; now left |].
           split; [unfold covers; simpl; lra |].
           left. exists p. split; [now left |].
           split; [unfold covers; lra | reflexivity].
        -- destruct (A (end_ p)) as (q & Q1 & Q2 & Q3);
             [lra | lra | intros x ->; unfold covers; lra |].
           exists q. split; [right; now right | tauto].
    + (* no gap *)
      assert (G : Qltb cursor cursor = false) by (apply Qltb_ge; lra).
      rewrite G. cbn [app].
      destruct (maxQ_cases cursor (end_ p)) as [[L2 E2] | [L2 E2]];
        rewrite E2.
      * assert (G2 : Qltb cursor (end_ p) = true) by (apply Qltb_lt; lra).
        rewrite G2.
        destruct (Qlt_le_dec t (end_ p)) as [Lte | Let].
        -- exists (mkSpan cursor (end_ p) (span_status p)).
           split; [now left |].
           split; [unfold covers; simpl; lra |].
           left. exists p. split; [now left |].
           split; [unfold covers; lra | reflexivity].
        -- destruct (A (end_ p)) as (q & Q1 & Q2 & Q3);
             [lra | lra | intros x ->; unfold covers; lra |].
           exists q. split; [now right | tauto].
      * assert (G2 : Qltb cursor cursor = false) by (apply Qltb_ge; lra).
        rewrite G2.
        destruct (A cursor) as (q & Q1 & Q2 & Q3);
          [lra | lra | intros x ->; unfold covers; lra |].
        exists q. tauto.
Qed.



(* ---------------------------------------------------------------- *)
(** *** Where the pieces of an overnight period end up *)

(** No span of [others] covers the instant [t]. *)
Definition uncovered (others : list span) (t : Q) : Prop :=
  forall q, In q others -> ~ covers q t.

Definition drivingSixToTen : period :=
  mkPeriod "driving" (VNum (Fin 6)) (VNum (Fin 10)).

Lemma normalizePeriods_eq (periods : list period) :
  normalizePeriods periods
  = withFullDayCoverage 0 (sortSpans (normalized periods)).
Proof.
  unfold normalizePeriods.
  destruct (sortSpans (normalized periods)); reflexivity.
Qed.

Lemma normalized_app (a b : list period) :
  normalized (a ++ b) = normalized a ++ normalized b.
Proof. unfold normalized. apply flat_map_app. Qed.

Lemma normalized_cons (p : period) (ps : list period) :
  normalized (p :: ps) = pushed p ++ normalized ps.
Proof. reflexivity. Qed.

Lemma pushed_overnight (p : period) :
  STATUS_BY_KEY_truthy (status p) = true ->
  clampHour (end_hour_of_day p) <= clampHour (start_hour_of_day p) ->
  pushed p
  = (if Qltb (clampHour (start_hour_of_day p)) 24
     then [mkSpan (clampHour (start_hour_of_day p)) 24 (status p)] else [])
    ++ (if Qltb 0 (clampHour (end_hour_of_day p))
        then [mkSpan 0 (clampHour (end_hour_of_day p)) (status p)] else []).
Proof.
  intros T L. unfold pushed. rewrite T. cbv zeta.
  destruct (Qltb (clampHour (start_hour_of_day p))
                 (clampHour (end_hour_of_day p))) eqn:E;
    [apply Qltb_lt in E; lra | reflexivity].
Qed.

Lemma pushed_status (p : period) (x : span) :
  In x (pushed p) -> span_status x = status p.
Proof.
  unfold pushed. destruct (STATUS_BY_KEY_truthy (status p)); [| intros []].
  cbv zeta.
  repeat match goal with
         | |- context [if ?c then _ else _] => destruct c
         end; simpl; intuition (subst; reflexivity).
Qed.

(** Where the sort puts an element: the others stay around it. *)
Lemma insertSpan_fresh (x : span) (l : list span) :
  exists L1 L2, insertSpan x l = L1 ++ x :: L2 /\ l = L1 ++ L2.
Proof.
  induction l as [| y l (L1 & L2 & E1 & E2)]; simpl.
  - exists [], []. auto.
  - destruct (Qle_bool (compareSpans x y) 0).
    + exists [], (y :: l). auto.
    + exists (y :: L1), L2. rewrite E1. split; [reflexivity |].
      simpl. now f_equal.
Qed.

Lemma insertSpan_keeps (y x : span) (L2 L1 : list span) :
  exists L1' L2',
    insertSpan y (L1 ++ x :: L2) = L1' ++ x :: L2'
    /\ forall z, In z (L1' ++ L2') -> z = y \/ In z (L1 ++ L2).
Proof.
  induction L1 as [| w L1 (L1' & L2' & E & I)]; simpl.
  - destruct (Qle_bool (compareSpans y x) 0).
    + exists [y], L2. split; [reflexivity |].
      simpl. intros z [<- | H]; auto.
    + exists [], (insertSpan y L2). split; [reflexivity |].
      simpl. intros z H. apply insertSpan_In in H. exact H.
  - destruct (Qle_bool (compareSpans y w) 0).
    + exists (y :: w :: L1), L2. split; [reflexivity |].
      simpl. intros z [<- | [<- | H]]; auto.
    + exists (w :: L1'), L2'. split; [simpl; now rewrite E |].
      simpl. intros z [<- | H]; [auto |]. apply I in H. tauto.
Qed.

Lemma sortSpans_split (l1 : list span) (x : span) (l2 : list span) :
  exists L1 L2,
    sortSpans (l1 ++ x :: l2) = L1 ++ x :: L2
    /\ forall z, In z (L1 ++ L2) -> In z (l1 ++ l2).
Proof.
  induction l1 as [| w l1 (L1 & L2 & E & I)].
  - change (sortSpans ([] ++ x :: l2)) with (insertSpan x (sortSpans l2)).
    destruct (insertSpan_fresh x (sortSpans l2)) as (L1 & L2 & E1 & E2).
    exists L1, L2. split; [exact E1 |].
    intros z H. rewrite <- E2 in H. apply sortSpans_In, H.
  - change (sortSpans ((w :: l1) ++ x :: l2))
      with (insertSpan w (sortSpans (l1 ++ x :: l2))).
    rewrite E.
    destruct (insertSpan_keeps w x L2 L1) as (L1' & L2' & E' & I').
    exists L1', L2'. split; [exact E' |].
    intros z H. apply I' in H.
    destruct H as [-> | H]; [now left | right; apply I, H].
Qed.

Lemma sortedByStart_before (L1 : list span) (x : span) (L2 : list span) :
  sortedByStart (L1 ++ x :: L2) -> Forall (fun y => start y <= start x) L1.
Proof.
  induction L1 as [| w L1 IH]; simpl; intro S; [constructor |].
  destruct S as [F S]. constructor; [| apply IH, S].
  rewrite Forall_forall in F. apply F, in_or_app. right. now left.
Qed.

(** Spans that end by [a] leave the cursor at or before [a]. *)
Lemma withFullDayCoverage_after (a : Q) (rest : list span) (L1 : list span) :
  forall c, c <= a ->
  Forall (fun y => start y <= a /\ end_ y <= a) L1 ->
  exists c',
    c' <= a
    /\ forall z, In z (withFullDayCoverage c' rest) ->
                 In z (withFullDayCoverage c (L1 ++ rest)).
Proof.
  induction L1 as [| y L1 IH]; intros c Hc F.
  - exists c. split; [exact Hc | auto].
  - inversion F as [| ? ? [Y1 Y2] F']; subst.
    cbn [app withFullDayCoverage].
    assert (Hs : maxQ c (start y) <= a)
      by (destruct (maxQ_cases c (start y)) as [[_ ->] | [_ ->]]; lra).
    assert (He : maxQ (maxQ c (start y)) (end_ y) <= a)
      by (destruct (maxQ_cases (maxQ c (start y)) (end_ y))
            as [[_ ->] | [_ ->]]; lra).
    destruct (Qltb (maxQ c (start y)) (maxQ (maxQ c (start y)) (end_ y))).
    + destruct (IH _ He F') as (c' & C1 & C2).
      exists c'. split; [exact C1 |].
      intros z Hz. apply in_or_app. right. right. apply C2, Hz.
    + destruct (IH _ Hc F') as (c' & C1 & C2).
      exists c'. split; [exact C1 |].
      intros z Hz. apply in_or_app. right. apply C2, Hz.
Qed.

Lemma withFullDayCoverage_head (c : Q) (x : span) (L2 : list span) :
  c <= start x -> start x < end_ x ->
  emits (withFullDayCoverage c (x :: L2)) (start x) (end_ x) (span_status x).
Proof.
  intros Hc Hx. cbn [withFullDayCoverage].
  destruct (maxQ_cases c (start x)) as [[L1 E1] | [L1 E1]]; rewrite E1.
  - destruct (maxQ_cases (start x) (end_ x)) as [[L2' E2] | [L2' E2]];
      [| lra].
    rewrite E2.
    assert (G : Qltb (start x) (end_ x) = true) by (apply Qltb_lt; lra).
    rewrite G.
    exists (mkSpan (start x) (end_ x) (span_status x)). split.
    + apply in_or_app. right. now left.
    + simpl. repeat split; reflexivity.
  - destruct (maxQ_cases c (end_ x)) as [[L2' E2] | [L2' E2]]; [| lra].
    rewrite E2.
    assert (G : Qltb c (end_ x) = true) by (apply Qltb_lt; lra).
    rewrite G.
    exists (mkSpan c (end_ x) (span_status x)). split.
    + apply in_or_app. right. now left.
    + simpl. repeat split; (lra || reflexivity).
Qed.

(** A piece whose first instant no other piece covers is returned with its
    own hours. *)
Lemma piece_returned_whole (l1 : list span) (x : span) (l2 : list span) :
  0 <= start x -> start x < end_ x ->
  uncovered (l1 ++ l2) (start x) ->
  emits (withFullDayCoverage 0 (sortSpans (l1 ++ x :: l2)))
        (start x) (end_ x) (span_status x).
Proof.
  intros H0 Hx U.
  pose proof (sortSpans_sorted (l1 ++ x :: l2)) as S.
  destruct (sortSpans_split l1 x l2) as (L1 & L2 & E & I).
  rewrite E in *.
  pose proof (sortedByStart_before _ _ _ S) as B.
  assert (F : Forall (fun y => start y <= start x /\ end_ y <= start x) L1).
  { apply Forall_forall. intros y Hy. rewrite Forall_forall in B.
    specialize (B y Hy). split; [exact B |].
    destruct (Qlt_le_dec (start x) (end_ y)) as [C | C]; [| exact C].
    exfalso. apply (U y); [apply I, in_or_app; now left |].
    split; assumption. }
  destruct (withFullDayCoverage_after (start x) (x :: L2) L1 0 H0 F)
    as (c' & C1 & C2).
  destruct (withFullDayCoverage_head c' x L2 C1 Hx) as (q & Q1 & Q2).
  exists q. split; [apply C2, Q1 | exact Q2].
Qed.

(** C8, amended.  An input period that passes the status filter and whose
    clamped end is not after its clamped start is split at midnight, not
    discarded.  Its piece from the start to 24 (there is one when the start
    is before 24) is among the returned periods when no piece of another
    input period covers the instant it starts at, and so is its piece from
    0 to the end (there is one when the end is after 0); and at every
    instant of either piece that no piece of another input period covers,
    the returned period holding that instant has the status of the period.
    A period that fails the status filter leaves the result as it is
    without it. *)
Theorem recognised_period_split_at_midnight
    (pre post : list period) (p : period) :
  clampHour (end_hour_of_day p) <= clampHour (start_hour_of_day p) ->
  (STATUS_BY_KEY_truthy (status p) = true ->
   (clampHour (start_hour_of_day p) < 24 ->
    uncovered (normalized (pre ++ post)) (clampHour (start_hour_of_day p)) ->
    emits (normalizePeriods (pre ++ p :: post))
          (clampHour (start_hour_of_day p)) 24 (status p))
   /\ (0 < clampHour (end_hour_of_day p) ->
       uncovered (normalized (pre ++ post)) 0 ->
       emits (normalizePeriods (pre ++ p :: post))
             0 (clampHour (end_hour_of_day p)) (status p))
   /\ (forall t,
          (clampHour (start_hour_of_day p) <= t /\ t < 24)
          \/ (0 <= t /\ t < clampHour (end_hour_of_day p)) ->
          uncovered (normalized (pre ++ post)) t ->
          exists q,
            In q (normalizePeriods (pre ++ p :: post))
            /\ covers q t /\ span_status q = status p))
  /\ (STATUS_BY_KEY_truthy (status p) = false ->
      normalizePeriods (pre ++ p :: post) = normalizePeriods (pre ++ post)).
Proof.
  intro L.
  pose proof (clampHour_range (start_hour_of_day p)) as [Hs0 Hs24].
  pose proof (clampHour_range (end_hour_of_day p)) as [He0 He24].
  split.
  - intro T.
    pose proof (pushed_overnight p T L) as P.
    set (s := clampHour (start_hour_of_day p)) in *.
    set (e := clampHour (end_hour_of_day p)) in *.
    assert (U' : forall t, uncovered (normalized (pre ++ post)) t ->
                 uncovered (normalized pre) t /\ uncovered (normalized post) t).
    { intros t U. rewrite normalized_app in U.
      split; intros q Hq; apply U, in_or_app; auto. }
    repeat split.
    + (* the piece from the start to 24 *)
      intros Hs U. destruct (U' _ U) as [U1 U2].
      rewrite normalizePeriods_eq, normalized_app, normalized_cons, P.
      assert (G : Qltb s 24 = true) by (apply Qltb_lt; exact Hs).
      rewrite G. rewrite <- app_assoc. cbn [app].
      apply (piece_returned_whole (normalized pre) (mkSpan s 24 (status p))).
      * exact Hs0.
      * exact Hs.
      * intros q Hq. cbn [start].
        apply in_app_or in Hq. destruct Hq as [Hq | Hq]; [now apply U1 |].
        apply in_app_or in Hq. destruct Hq as [Hq | Hq]; [| now apply U2].
        destruct (Qltb 0 e); [| destruct Hq].
        destruct Hq as [<- | []]. unfold covers. simpl. lra.
    + (* the piece from 0 to the end *)
      intros He U. destruct (U' _ U) as [U1 U2].
      rewrite normalizePeriods_eq, normalized_app, normalized_cons, P.
      assert (G : Qltb 0 e = true) by (apply Qltb_lt; exact He).
      rewrite G. rewrite <- app_assoc. cbn [app]. rewrite app_assoc.
      apply (piece_returned_whole _ (mkSpan 0 e (status p))).
      * cbn [start]. lra.
      * exact He.
      * intros q Hq. cbn [start].
        apply in_app_or in Hq. destruct Hq as [Hq | Hq]; [| now apply U2].
        apply in_app_or in Hq. destruct Hq as [Hq | Hq]; [now apply U1 |].
        destruct (Qltb s 24); [| destruct Hq].
        destruct Hq as [<- | []]. unfold covers. simpl. lra.
    + (* instant by instant *)
      intros t Ht U. destruct (U' _ U) as [U1 U2].
      assert (Ht' : 0 <= t /\ t < 24) by lra.
      rewrite normalizePeriods_eq.
      pose proof (sortSpans_Forall _ _
                    (normalized_wellFormed (pre ++ p :: post))) as W.
      pose proof (sortSpans_sorted (normalized (pre ++ p :: post))) as S.
      destruct (withFullDayCoverage_statusFrom _ W S 0 t)
        as (q & Q1 & Q2 & Q3); try lra.
      exists q. split; [exact Q1 |]. split; [exact Q2 |].
      assert (OWN : exists x, In x (pushed p) /\ covers x t).
      { rewrite P. destruct Ht as [[A B] | [A B]].
        - exists (mkSpan s 24 (status p)). split.
          + apply in_or_app. left.
            assert (G : Qltb s 24 = true) by (apply Qltb_lt; lra).
            rewrite G. now left.
          + unfold covers. simpl. lra.
        - exists (mkSpan 0 e (status p)). split.
          + apply in_or_app. right.
            assert (G : Qltb 0 e = true) by (apply Qltb_lt; lra).
            rewrite G. now left.
          + unfold covers. simpl. lra. }
      destruct Q3 as [(x & X1 & X2 & X3) | (N & _)].
      * apply (proj1 (sortSpans_In _ _)) in X1.
        rewrite normalized_app, normalized_cons in X1.
        apply in_app_or in X1. destruct X1 as [X1 | X1];
          [exfalso; now apply (U1 x) |].
        apply in_app_or in X1. destruct X1 as [X1 | X1];
          [| exfalso; now apply (U2 x)].
        rewrite X3. apply pushed_status, X1.
      * exfalso. destruct OWN as (x & X1 & X2).
        apply (N x); [| exact X2].
        apply (proj2 (sortSpans_In _ _)).
        rewrite normalized_app, normalized_cons.
        apply in_or_app. right. apply in_or_app. now left.
  - intro T.
    rewrite !normalizePeriods_eq, !normalized_app, normalized_cons.
    unfold pushed. rewrite T. reflexivity.
Qed.

Lemma recognised_period_split_at_midnight_witness :
  emits (normalizePeriods [drivingSixToTen; overnightSleeper]) 22 24 "sleeper"
  /\ emits (normalizePeriods [drivingSixToTen; overnightSleeper]) 0 2 "sleeper".
Proof.
  assert (L : clampHour (end_hour_of_day overnightSleeper)
              <= clampHour (start_hour_of_day overnightSleeper))
    by (vm_compute; discriminate).
  destruct (recognised_period_split_at_midnight
              [drivingSixToTen] [] overnightSleeper L) as [H _].
  destruct (H eq_refl) as (A & B & _).
  split.
  - apply A; [vm_compute; reflexivity |].
    intros q [<- | []] [C1 C2]. vm_compute in C2. discriminate.
  - apply B; [vm_compute; reflexivity |].
    intros q [<- | []] [C1 C2]. vm_compute in C1. now apply C1.
Defined.

(* ---------------------------------------------------------------- *)
(** *** A day log that is already a partition *)

(** The input period with its two hours clamped. *)
Definition asSpan (p : period) : span :=
  mkSpan (clampHour (start_hour_of_day p)) (clampHour (end_hour_of_day p))
         (status p).

(** Two spans with the same hours and the same status. *)
Definition sameSpan (a b : span) : Prop :=
  start a == start b /\ end_ a == end_ b /\ span_status a = span_status b.

Lemma chain_normalized (periods : list period) : forall a b,
  Forall (fun p => ownStatus (status p) = true) periods ->
  chain a (map asSpan periods) b ->
  normalized periods = map asSpan periods.
Proof.
  unfold normalized.
  induction periods as [| p ps IH]; simpl; intros a b O C; [reflexivity |].
  inversion O as [| ? ? Op Ops]; subst.
  destruct C as (_ & L & C).
  rewrite (IH _ _ Ops C).
  unfold pushed. rewrite (ownStatus_truthy _ Op). cbv zeta.
  apply Qltb_lt in L. simpl in L. rewrite L. reflexivity.
Qed.

Lemma chain_sortSpans (l : list span) : forall a b,
  chain a l b -> sortSpans l = l.
Proof.
  induction l as [| p l IH]; simpl; intros a b C; [reflexivity |].
  destruct C as (_ & L & C).
  rewrite (IH _ _ C).
  destruct l as [| y l']; [reflexivity |].
  simpl in C. destruct C as (Cy & _).
  simpl. unfold compareSpans.
  destruct (Qeq_bool (start p - start y) 0) eqn:E;
    [apply Qeq_bool_iff in E; lra |].
  assert (H : Qle_bool (start p - start y) 0 = true)
    by (apply Qle_bool_iff; lra).
  now rewrite H.
Qed.

Lemma chain_withFullDayCoverage (l : list span) : forall cursor,
  chain cursor l 24 ->
  Forall2 sameSpan (withFullDayCoverage cursor l) l.
Proof.
  induction l as [| p l IH]; simpl; intros cursor C.
  - assert (G : Qltb cursor 24 = false) by (apply Qltb_ge; lra).
    rewrite G. constructor.
  - destruct C as (Cs & L & C).
    destruct (maxQ_cases cursor (start p)) as [[L1 E1] | [L1 E1]]; [lra |].
    rewrite E1.
    assert (G : Qltb cursor cursor = false) by (apply Qltb_ge; lra).
    rewrite G. cbn [app].
    destruct (maxQ_cases cursor (end_ p)) as [[L2 E2] | [L2 E2]]; [| lra].
    rewrite E2.
    assert (G2 : Qltb cursor (end_ p) = true) by (apply Qltb_lt; lra).
    rewrite G2. constructor.
    + unfold sameSpan. simpl. repeat split; lra || reflexivity.
    + apply IH, C.
Qed.

(** X2.  A day log whose periods carry duty statuses and, once clamped,
    already run end to end from 0 to 24 comes back as it is: the same
    periods in the same order, nothing padded, clipped or reordered. *)
Theorem normalizePeriods_keeps_partition (periods : list period) :
  Forall (fun p => ownStatus (status p) = true) periods ->
  chain 0 (map asSpan periods) 24 ->
  Forall2 sameSpan (normalizePeriods periods) (map asSpan periods).
Proof.
  intros O C. unfold normalizePeriods.
  rewrite (chain_normalized _ _ _ O C), (chain_sortSpans _ _ _ C).
  destruct (map asSpan periods) as [| p rest] eqn:E.
  - simpl in C. lra.
  - apply chain_withFullDayCoverage, C.
Qed.

Definition plainDay : list period :=
  [ mkPeriod "off_duty" (VNum (Fin 0)) (VNum (Fin 6));
    mkPeriod "driving" (VNum (Fin 6)) (VNum (Fin (27 # 2)));
    mkPeriod "sleeper" (VNum (Fin (27 # 2))) (VNum (Fin 24)) ].

Lemma normalizePeriods_keeps_partition_witness :
  Forall2 sameSpan (normalizePeriods plainDay) (map asSpan plainDay).
Proof.
  apply (normalizePeriods_keeps_partition plainDay).
  - repeat constructor.
  - simpl. repeat split; reflexivity.
Defined.

(* ---------------------------------------------------------------- *)
(** *** [buildChartSeries] *)

(** [STATUS_BY_KEY[k].level]: the level of a row, [undefined] (here [None])
    on an inherited member, and a [TypeError] (the outer [None]) when
    [STATUS_BY_KEY[k]] is [undefined]. *)
Definition levelOf (k : string) : option (option Z) :=
  if String.eqb k "off_duty" then Some (Some 0%Z)
  else if String.eqb k "sleeper" then Some (Some 1%Z)
  else if String.eqb k "driving" then Some (Some 2%Z)
  else if String.eqb k "on_duty_not_driving" then Some (Some 3%Z)
  else if inheritedKey k then Some None
  else None.

(** A point of the chart: [{ hour, statusLevel, status }]. *)
Record point : Type := mkPoint {
  hour : Q;
  statusLevel : option Z;
  point_status : string
}.

(** The [forEach] of [buildChartSeries]; [first] tells whether the period
    at the head has index 0.  [None] is the [TypeError]. *)
Fixpoint chartPoints (first : bool) (periods : list span)
  : option (list point) :=
  match periods with
  | [] => Some []
  | p :: rest =>
      match levelOf (span_status p) with
      | None => None
      | Some level =>
          let here :=
            (if first then [mkPoint (start p) level (span_status p)]
             else [])
            ++ [mkPoint (end_ p) level (span_status p)] in
          match rest with
          | [] => Some here
          | next :: _ =>
              match levelOf (span_status next), chartPoints false rest with
              | Some nextLevel, Some tl =>
                  Some (here
                        ++ mkPoint (start next) nextLevel (span_status next)
                        :: tl)
              | _, _ => None
              end
          end
      end
  end.

Definition buildChartSeries (periods : list span) : option (list point) :=
  match periods with
  | [] => Some []
  | _ :: _ =>
      match chartPoints true periods with
      | None => None
      | Some points =>
          match rev points with
          | last :: _ =>
              if negb (Qeq_bool (hour last) 24)
              then Some (points
                         ++ [mkPoint 24 (statusLevel last) (point_status last)])
              else Some points
          | [] => Some points
          end
      end
  end.

(** The two ends of a period at its row level. *)
Definition bothEnds (p : span) : list point :=
  match levelOf (span_status p) with
  | Some level =>
      [mkPoint (start p) level (span_status p);
       mkPoint (end_ p) level (span_status p)]
  | None => []
  end.

Definition truthySpan (p : span) : Prop :=
  STATUS_BY_KEY_truthy (span_status p) = true.

Lemma levelOf_truthy (k : string) :
  STATUS_BY_KEY_truthy k = true -> exists level, levelOf k = Some level.
Proof.
  unfold STATUS_BY_KEY_truthy, ownStatus, mem, STATUS_ROWS, levelOf. simpl.
  destruct (String.eqb k "off_duty"); [eauto |].
  destruct (String.eqb k "sleeper"); [eauto |].
  destruct (String.eqb k "driving"); [eauto |].
  destruct (String.eqb k "on_duty_not_driving"); [eauto |].
  simpl. intros ->. eauto.
Qed.

Lemma bothEnds_Some (p : span) (level : option Z) :
  levelOf (span_status p) = Some level ->
  bothEnds p
  = [mkPoint (start p) level (span_status p);
     mkPoint (end_ p) level (span_status p)].
Proof. unfold bothEnds. now intros ->. Qed.

Lemma chartPoints_bothEnds (l : list span) :
  Forall truthySpan l ->
  chartPoints true l = Some (flat_map bothEnds l)
  /\ chartPoints false l = Some (tl (flat_map bothEnds l)).
Proof.
  induction 1 as [| p rest Hp Hrest [_ IH]]; [split; reflexivity |].
  destruct (levelOf_truthy _ Hp) as [level E].
  cbn [chartPoints flat_map]. rewrite E, (bothEnds_Some _ _ E).
  destruct rest as [| next rest']; [split; reflexivity |].
  rewrite IH. cbn [flat_map].
  inversion Hrest as [| ? ? Hnext _]; subst.
  destruct (levelOf_truthy _ Hnext) as [nl En].
  rewrite En, (bothEnds_Some _ _ En). split; reflexivity.
Qed.

Lemma pushed_truthySpan (p : period) : Forall truthySpan (pushed p).
Proof.
  unfold pushed.
  destruct (STATUS_BY_KEY_truthy (status p)) eqn:E; [| constructor].
  cbv zeta.
  repeat match goal with
         | |- context [if ?c then _ else _] => destruct c
         end; simpl; repeat constructor; exact E.
Qed.

Lemma withFullDayCoverage_truthySpan (sorted : list span) :
  Forall truthySpan sorted ->
  forall cursor, Forall truthySpan (withFullDayCoverage cursor sorted).
Proof.
  induction 1 as [| p rest Hp _ IH]; intro cursor; simpl.
  - destruct (Qltb cursor 24); repeat constructor.
  - apply Forall_app. split.
    + destruct (Qltb cursor (maxQ cursor (start p))); repeat constructor.
    + destruct (Qltb _ _); [constructor; [exact Hp |] |]; apply IH.
Qed.

Lemma normalizePeriods_truthySpan (periods : list period) :
  Forall truthySpan (normalizePeriods periods).
Proof.
  unfold normalizePeriods.
  assert (W : Forall truthySpan (sortSpans (normalized periods))).
  { apply sortSpans_Forall. unfold normalized.
    induction periods as [| p ps IH]; simpl; [constructor |].
    apply Forall_app. split; [apply pushed_truthySpan | exact IH]. }
  destruct (sortSpans (normalized periods)) as [| p rest].
  - repeat constructor.
  - apply withFullDayCoverage_truthySpan, W.
Qed.

Lemma flat_map_bothEnds_last (front : list span) (p : span) :
  truthySpan p ->
  exists pts level,
    flat_map bothEnds (front ++ [p])
    = pts ++ [mkPoint (end_ p) level (span_status p)].
Proof.
  intro Hp. destruct (levelOf_truthy _ Hp) as [level E].
  rewrite flat_map_app. cbn [flat_map]. rewrite (bothEnds_Some _ _ E).
  exists (flat_map bothEnds front
          ++ [mkPoint (start p) level (span_status p)]), level.
  rewrite app_nil_r, <- app_assoc. reflexivity.
Qed.

(** X3.  On the periods [normalizePeriods] returns, [buildChartSeries]
    raises no error and draws exactly the two ends of every period at the
    period's row, so the line begins at hour 0 and ends at hour 24 and no
    closing point has to be added. *)
Theorem buildChartSeries_of_normalised (periods : list period) :
  buildChartSeries (normalizePeriods periods)
  = Some (flat_map bothEnds (normalizePeriods periods))
  /\ List.length (flat_map bothEnds (normalizePeriods periods))
     = (2 * List.length (normalizePeriods periods))%nat
  /\ (exists p rest,
         flat_map bothEnds (normalizePeriods periods) = p :: rest
         /\ hour p == 0)
  /\ (exists front p,
         flat_map bothEnds (normalizePeriods periods) = front ++ [p]
         /\ hour p == 24).
Proof.
  destruct (normalizePeriods_chain periods) as [C NE].
  pose proof (normalizePeriods_truthySpan periods) as T.
  set (out := normalizePeriods periods) in *. clearbody out.
  destruct (exists_last NE) as (front & pl & E).
  assert (Tl : truthySpan pl).
  { rewrite E in T. apply Forall_app in T. destruct T as [_ T].
    now inversion T. }
  destruct (flat_map_bothEnds_last front pl Tl) as (pts & level & L).
  assert (E24 : end_ pl == 24) by (rewrite E in C; eapply chain_last, C).
  repeat split.
  - unfold buildChartSeries.
    destruct out as [| p0 rest]; [congruence |].
    rewrite (proj1 (chartPoints_bothEnds _ T)).
    rewrite E, L, rev_app_distr. cbn [rev app hour].
    apply Qeq_bool_iff in E24. now rewrite E24.
  - clear - T. induction T as [| p rest Hp _ IH]; [reflexivity |].
    cbn [flat_map]. rewrite length_app, IH.
    destruct (levelOf_truthy _ Hp) as [lv Elv].
    rewrite (bothEnds_Some _ _ Elv). simpl. lia.
  - destruct out as [| p0 rest]; [congruence |].
    inversion T as [| ? ? Hp0 _]; subst.
    destruct (levelOf_truthy _ Hp0) as [lv Elv].
    cbn [flat_map]. rewrite (bothEnds_Some _ _ Elv).
    eexists. eexists. split; [reflexivity |].
    simpl in C. simpl. tauto.
  - exists pts. eexists. rewrite E, L. split; [reflexivity | exact E24].
Qed.

(* ---------------------------------------------------------------- *)
(** *** [ELDSheet]: the figures printed on a day sheet *)

(** A period of a day log with the [start_hour] that [ELDSheet] reads
    besides the fields [normalizePeriods] reads. *)
Record loggedPeriod : Type := mkLogged {
  logged : period;
  start_hour : value
}.

(** The day log as far as the figures below read it. *)
Record dayLog : Type := mkDayLog {
  periods : list loggedPeriod;
  odometer_start : value;
  odometer_end : value
}.

(** [totals.driving + totals.on_duty_not_driving]. *)
Definition totalOnDuty (d : dayLog) : Q :=
  let t := totalsFromPeriods (normalizePeriods (map logged (periods d))) in
  driving t + on_duty_not_driving t.

(** [Math.min(...periods.map((p) => p.start_hour ?? 0), 0)]. *)
Definition dayStartAbsHour (d : dayLog) : number :=
  fold_right
    (fun p least =>
       Math_min (Number (nullish (start_hour p) (VNum (Fin 0)))) least)
    (Fin 0) (periods d).

(** The text after "Start Time:". *)
Definition startTime (d : dayLog) : string :=
  Time.formatAbsoluteTime (VNum (dayStartAbsHour d)).

Definition nonNegative (t : totals) : Prop :=
  0 <= off_duty t /\ 0 <= sleeper t /\ 0 <= driving t
  /\ 0 <= on_duty_not_driving t.

Lemma addTo_bounds (acc : totals) (key : string) (duration : Q) :
  0 <= duration -> nonNegative acc ->
  nonNegative (addTo acc key duration)
  /\ totalHours (addTo acc key duration) <= totalHours acc + duration.
Proof.
  unfold nonNegative, addTo, totalHours. intros D (A & B & C & E).
  destruct (String.eqb key "off_duty"); [simpl; repeat split; lra |].
  destruct (String.eqb key "sleeper"); [simpl; repeat split; lra |].
  destruct (String.eqb key "driving"); [simpl; repeat split; lra |].
  destruct (String.eqb key "on_duty_not_driving");
    simpl; repeat split; lra.
Qed.

Lemma chain_totals_bounds (l : list span) : forall a b acc,
  chain a l b -> nonNegative acc ->
  nonNegative
    (fold_left
       (fun acc p => addTo acc (span_status p) (maxQ 0 (end_ p - start p)))
       l acc)
  /\ totalHours
       (fold_left
          (fun acc p => addTo acc (span_status p) (maxQ 0 (end_ p - start p)))
          l acc)
     <= totalHours acc + (b - a).
Proof.
  induction l as [| p l IH]; simpl; intros a b acc C N.
  - split; [exact N | lra].
  - destruct C as (C1 & C2 & C3).
    assert (D : 0 <= maxQ 0 (end_ p - start p) /\
                maxQ 0 (end_ p - start p) == end_ p - start p).
    { destruct (maxQ_cases 0 (end_ p - start p)) as [[L ->] | [L ->]]; lra. }
    destruct D as [D0 D1].
    destruct (addTo_bounds acc (span_status p) _ D0 N) as [N' T'].
    destruct (IH _ _ _ C3 N') as [N'' T''].
    split; [exact N'' | lra].
Qed.

Lemma addTo_other (acc : totals) (key : string) (duration : Q) :
  key <> "driving"%string -> key <> "on_duty_not_driving"%string ->
  driving (addTo acc key duration) = driving acc
  /\ on_duty_not_driving (addTo acc key duration) = on_duty_not_driving acc.
Proof.
  intros D O. unfold addTo.
  destruct (String.eqb key "off_duty"); [split; reflexivity |].
  destruct (String.eqb key "sleeper"); [split; reflexivity |].
  destruct (String.eqb_spec key "driving"); [contradiction |].
  destruct (String.eqb_spec key "on_duty_not_driving"); [contradiction |].
  split; reflexivity.
Qed.

(** The statuses of the returned periods are statuses of input periods, or
    that of the padding. *)
Lemma normalizePeriods_statuses (P : string -> Prop) (periods : list period) :
  P "off_duty"%string ->
  Forall (fun p => P (status p)) periods ->
  Forall (fun q => P (span_status q)) (normalizePeriods periods).
Proof.
  intros O H. rewrite normalizePeriods_eq.
  assert (N : Forall (fun q => P (span_status q)) (normalized periods)).
  { apply Forall_forall. intros q Hq. unfold normalized in Hq.
    apply in_flat_map in Hq. destruct Hq as (p & Hp & Hq).
    rewrite (pushed_status _ _ Hq).
    rewrite Forall_forall in H. apply H, Hp. }
  apply sortSpans_Forall in N. revert N.
  generalize (sortSpans (normalized periods)) as sorted. generalize 0.
  intros c sorted N. revert c.
  induction N as [| x rest Hx _ IH]; intro c; cbn [withFullDayCoverage].
  - destruct (Qltb c 24); repeat constructor. exact O.
  - apply Forall_app. split.
    + destruct (Qltb c (maxQ c (start x))); repeat constructor. exact O.
    + destruct (Qltb _ _); [constructor; [exact Hx |] |]; apply IH.
Qed.

Lemma totals_without_duty (l : list span) : forall acc,
  Forall (fun q => span_status q <> "driving"%string
                   /\ span_status q <> "on_duty_not_driving"%string) l ->
  driving
    (fold_left
       (fun acc p => addTo acc (span_status p) (maxQ 0 (end_ p - start p)))
       l acc)
  = driving acc
  /\ on_duty_not_driving
       (fold_left
          (fun acc p => addTo acc (span_status p) (maxQ 0 (end_ p - start p)))
          l acc)
     = on_duty_not_driving acc.
Proof.
  induction l as [| p l IH]; simpl; intros acc H; [split; reflexivity |].
  inversion H as [| ? ? [D O] H']; subst.
  destruct (IH (addTo acc (span_status p) (maxQ 0 (end_ p - start p))) H')
    as [-> ->].
  apply addTo_other; assumption.
Qed.

(** X4.  Whatever the day log holds, none of the four totals printed on the
    sheet is negative, nor is the total on duty; and the total on duty is 0
    when no period of the day log is a driving or an on-duty period. *)
Theorem totals_never_negative (d : dayLog) :
  nonNegative
    (totalsFromPeriods (normalizePeriods (map logged (periods d))))
  /\ 0 <= totalOnDuty d
  /\ (Forall (fun p => status (logged p) <> "driving"%string
                       /\ status (logged p) <> "on_duty_not_driving"%string)
             (periods d) ->
      totalOnDuty d == 0).
Proof.
  unfold totalOnDuty, totalsFromPeriods.
  destruct (normalizePeriods_chain (map logged (periods d))) as [C _].
  assert (N0 : nonNegative (mkTotals 0 0 0 0))
    by (unfold nonNegative; simpl; lra).
  destruct (chain_totals_bounds _ _ _ _ C N0) as [N _].
  repeat split; try apply N.
  - cbv zeta. destruct N as (_ & _ & N1 & N2). lra.
  - intro H. cbv zeta.
    assert (S : Forall (fun q => span_status q <> "driving"%string
                                 /\ span_status q <> "on_duty_not_driving"%string)
                       (normalizePeriods (map logged (periods d)))).
    { apply (normalizePeriods_statuses
               (fun k => k <> "driving"%string
                         /\ k <> "on_duty_not_driving"%string)).
      - split; discriminate.
      - apply Forall_map. exact H. }
    destruct (totals_without_duty _ (mkTotals 0 0 0 0) S) as [-> ->].
    simpl. lra.
Qed.

Definition restDay : dayLog :=
  mkDayLog
    [ mkLogged (mkPeriod "sleeper" (VNum (Fin 22)) (VNum (Fin 6)))
                     (VNum (Fin 46));
      mkLogged (mkPeriod "off_duty" (VNum (Fin 6)) (VNum (Fin 22)))
                     (VNum (Fin 54)) ]
    (VNum (Fin 1200)) (VNum (Fin 1200)).

Lemma totals_never_negative_witness : totalOnDuty restDay == 0.
Proof.
  apply (totals_never_negative restDay).
  repeat constructor; discriminate.
Defined.

Lemma dayStartAbsHour_zero (l : list loggedPeriod) :
  Forall (fun p =>
            ltb (Number (nullish (start_hour p) (VNum (Fin 0)))) (Fin 0)
            = false) l ->
  let least :=
    fold_right
      (fun p least =>
         Math_min (Number (nullish (start_hour p) (VNum (Fin 0)))) least)
      (Fin 0) l in
  least = NaN \/ exists q, least = Fin q /\ q == 0.
Proof.
  induction 1 as [| p l Hp _ IH]; cbv zeta; simpl.
  - right. exists 0. split; reflexivity.
  - cbv zeta in IH.
    set (x := Number (nullish (start_hour p) (VNum (Fin 0)))) in *.
    set (r := fold_right _ _ l) in *. clearbody x r.
    destruct IH as [-> | (q & -> & Q)].
    + left. unfold Math_min. destruct x; reflexivity.
    + destruct x as [y | | |]; simpl in Hp.
      * unfold Math_min. simpl.
        apply Qltb_ge in Hp.
        destruct (Qltb q y) eqn:E;
          [apply Qltb_lt in E | apply Qltb_ge in E].
        -- right. exists q. split; [reflexivity | exact Q].
        -- right. exists y. split; [reflexivity | lra].
      * left. reflexivity.
      * right. exists q. unfold Math_min. simpl. split; [reflexivity | exact Q].
      * discriminate.
Qed.

(** X5.  When no period of the day log carries a negative [start_hour] (in
    particular when the periods carry none at all), the start hour the
    sheet computes is 0 or [NaN], and the sheet's Start Time reads
    "Day 1 00:00" whichever day the sheet is for. *)
Theorem start_time_is_day_one (d : dayLog) :
  Forall (fun p =>
            ltb (Number (nullish (start_hour p) (VNum (Fin 0)))) (Fin 0)
            = false) (periods d) ->
  (dayStartAbsHour d = NaN
   \/ exists q, dayStartAbsHour d = Fin q /\ q == 0)
  /\ startTime d = "Day 1 00:00"%string.
Proof.
  intro H. pose proof (dayStartAbsHour_zero _ H) as Z. cbv zeta in Z.
  fold (dayStartAbsHour d) in Z. split; [exact Z |].
  unfold startTime, Time.formatAbsoluteTime.
  destruct Z as [-> | (q & -> & Q)].
  - reflexivity.
  - now rewrite (Time.formatTripTime_zero q " " Q).
Qed.

Definition thirdDay : dayLog :=
  mkDayLog
    [ mkLogged (mkPeriod "sleeper" (VNum (Fin 0)) (VNum (Fin 7))) VUndefined;
      mkLogged (mkPeriod "driving" (VNum (Fin 7)) (VNum (Fin 15)))
               (VNum (Fin 55));
      mkLogged (mkPeriod "off_duty" (VNum (Fin 15)) (VNum (Fin 24))) VNull ]
    (VNum (Fin 1100)) (VNum (Fin 1540)).

Lemma start_time_is_day_one_witness :
  (dayStartAbsHour thirdDay = NaN
   \/ exists q, dayStartAbsHour thirdDay = Fin q /\ q == 0)
  /\ startTime thirdDay = "Day 1 00:00"%string.
Proof.
  apply (start_time_is_day_one thirdDay). repeat constructor.
Defined.

(* ---------------------------------------------------------------- *)
(** *** [ELDTooltip]: the hour under the pointer *)

(** [formatHourLabel(Math.round(label))]. *)
Definition tooltipHour (label : number) : option string :=
  Time.formatHourLabel (VNum (Math_round label)).

(** X22.  For a pointer anywhere on the day's axis the tooltip shows the
    label of the nearest whole hour, halves going up; the hour is rounded
    to an integer from 0 to 24, so the label has no fraction in it. *)
Theorem tooltipHour_of_day (q : Q) :
  0 <= q -> q <= 24 ->
  (0 <= roundQ q <= 24)%Z
  /\ tooltipHour (Fin q) = Some (Time.hourLabel (roundQ q)).
Proof.
  intros L U.
  assert (R : (0 <= roundQ q <= 24)%Z).
  { unfold roundQ. apply Time.floor_between; unfold inject_Z; lra. }
  split; [exact R |].
  unfold tooltipHour, Math_round. apply Time.formatHourLabel_of_hour, R.
Qed.

Lemma tooltipHour_of_day_witness :
  (0 <= roundQ (135 # 10) <= 24)%Z
  /\ tooltipHour (Fin (135 # 10)) = Some (Time.hourLabel (roundQ (135 # 10))).
Proof.
  apply (tooltipHour_of_day (135 # 10)); discriminate.
Defined.

End ELDLog.

(* ================================================================== *)
(** ** The same day-log functions on binary64 numbers *)
(* ================================================================== *)

(** JavaScript adds and subtracts hours in binary64.  [normalizePeriods]
    only compares hours, so rounding does not touch it; [totalsFromPeriods]
    subtracts and adds them, and its sums are rounded.  Here the hours are
    primitive floats and the input fields are taken to hold numbers. *)
Module Binary64.

Record period : Type := mkPeriod {
  status : string;
  start_hour_of_day : float;
  end_hour_of_day : float
}.

Record span : Type := mkSpan {
  start : float;
  end_ : float;
  span_status : string
}.

(** [x || 0]: zero and [NaN] are falsy. *)
Definition orZero (x : float) : float :=
  if PrimFloat.is_nan x || PrimFloat.is_zero x then 0%float else x.

Definition Math_max (a b : float) : float :=
  if PrimFloat.is_nan a || PrimFloat.is_nan b then PrimFloat.nan
  else if PrimFloat.ltb a b then b else a.

Definition Math_min (a b : float) : float :=
  if PrimFloat.is_nan a || PrimFloat.is_nan b then PrimFloat.nan
  else if PrimFloat.ltb b a then b else a.

Definition clampHour (hour : float) : float :=
  Math_max 0%float (Math_min 24%float (orZero hour)).

Definition pushed (p : period) : list span :=
  if ELDLog.STATUS_BY_KEY_truthy (status p) then
    let s := clampHour (start_hour_of_day p) in
    let e := clampHour (end_hour_of_day p) in
    if PrimFloat.ltb s e then [mkSpan s e (status p)]
    else
      (if PrimFloat.ltb s 24%float then [mkSpan s 24%float (status p)]
       else [])
      ++ (if PrimFloat.ltb 0%float e then [mkSpan 0%float e (status p)]
          else [])
  else [].

Definition normalized (periods : list period) : list span :=
  flat_map pushed periods.

Definition compareSpans (a b : span) : float :=
  let d := PrimFloat.sub (start a) (start b) in
  if PrimFloat.is_nan d || PrimFloat.is_zero d
  then PrimFloat.sub (end_ a) (end_ b) else d.

(** [sort] reads a [NaN] from the comparator as 0. *)
Fixpoint insertSpan (x : span) (l : list span) : list span :=
  match l with
  | [] => [x]
  | y :: l' =>
      let c := compareSpans x y in
      if PrimFloat.is_nan c || PrimFloat.leb c 0%float then x :: l
      else y :: insertSpan x l'
  end.

Definition sortSpans (l : list span) : list span :=
  fold_right insertSpan [] l.

Definition off (a b : float) : span := mkSpan a b "off_duty".

Fixpoint withFullDayCoverage (cursor : float) (sorted : list span)
  : list span :=
  match sorted with
  | [] => if PrimFloat.ltb cursor 24%float then [off cursor 24%float] else []
  | p :: rest =>
      let s := Math_max cursor (start p) in
      let e := Math_max s (end_ p) in
      (if PrimFloat.ltb cursor s then [off cursor s] else [])
      ++ (if PrimFloat.ltb s e
          then mkSpan s e (span_status p) :: withFullDayCoverage e rest
          else withFullDayCoverage cursor rest)
  end.

Definition normalizePeriods (periods : list period) : list span :=
  match sortSpans (normalized periods) with
  | [] => [off 0%float 24%float]
  | sorted => withFullDayCoverage 0%float sorted
  end.

Record totals : Type := mkTotals {
  off_duty : float;
  sleeper : float;
  driving : float;
  on_duty_not_driving : float
}.

Definition addTo (acc : totals) (key : string) (duration : float) : totals :=
  if String.eqb key "off_duty" then
    mkTotals (PrimFloat.add (off_duty acc) duration) (sleeper acc)
             (driving acc) (on_duty_not_driving acc)
  else if String.eqb key "sleeper" then
    mkTotals (off_duty acc) (PrimFloat.add (sleeper acc) duration)
             (driving acc) (on_duty_not_driving acc)
  else if String.eqb key "driving" then
    mkTotals (off_duty acc) (sleeper acc)
             (PrimFloat.add (driving acc) duration) (on_duty_not_driving acc)
  else if String.eqb key "on_duty_not_driving" then
    mkTotals (off_duty acc) (sleeper acc) (driving acc)
             (PrimFloat.add (on_duty_not_driving acc) duration)
  else acc.

Definition totalsFromPeriods (periods : list span) : totals :=
  fold_left
    (fun acc p =>
       addTo acc (span_status p)
             (Math_max 0%float (PrimFloat.sub (end_ p) (start p))))
    periods (mkTotals 0%float 0%float 0%float 0%float).

Definition totalHours (t : totals) : float :=
  PrimFloat.add
    (PrimFloat.add (PrimFloat.add (off_duty t) (sleeper t)) (driving t))
    (on_duty_not_driving t).

(** A morning of driving from 0.05 h to 7.9 h: the binary64 numbers nearest
    to 0.05 and 7.9. *)
Definition h0_05 : float := 0x1.999999999999ap-5%float.
Definition h7_9 : float := 0x1.f99999999999ap+2%float.

Definition morningDrive : list period := [mkPeriod "driving" h0_05 h7_9].

Example morningDrive_normalised :
  normalizePeriods morningDrive
  = [off 0%float h0_05; mkSpan h0_05 h7_9 "driving"; off h7_9 24%float].
Proof. vm_compute. reflexivity. Qed.

(** C1 fails as worded.  For the single driving period from 0.05 to 7.9 the
    totals are 16.150000000000002 h off duty and 7.8500000000000005 h
    driving; only two of the four are not zero, so in whatever order they
    are added the sum is 24.000000000000004, which is not 24. *)
Lemma totals_sum_is_rounded :
  totalsFromPeriods (normalizePeriods morningDrive)
  = mkTotals 0x1.0266666666667p+4%float 0%float
             0x1.f666666666667p+2%float 0%float
  /\ PrimFloat.add 0x1.0266666666667p+4%float 0x1.f666666666667p+2%float
     = 0x1.8000000000001p+4%float
  /\ totalHours (totalsFromPeriods (normalizePeriods morningDrive))
     = 0x1.8000000000001p+4%float
  /\ PrimFloat.eqb
       (totalHours (totalsFromPeriods (normalizePeriods morningDrive)))
       24%float
     = false.
Proof. repeat split; vm_compute; reflexivity. Qed.

End Binary64.

(* ================================================================== *)
(** ** services/tripService.js *)
(* ================================================================== *)

Module TripService.

Import JS.

(** The form of [App]: four text fields. *)
Record form : Type := mkForm {
  currentLocation : string;
  pickupLocation : string;
  dropoffLocation : string;
  currentCycleUsed : string
}.

(** The body posted to [/trips/plan/]. *)
Record request : Type := mkRequest {
  current_location : string;
  pickup_location : string;
  dropoff_location : string;
  current_cycle_used : number;
  cycle_rule : string;
  adverse_driving_conditions : bool;
  short_haul_mode : string;
  use_16_hour_exception : bool;
  used_16_hour_in_last_7_days : bool;
  return_to_reporting_location : bool;
  enable_34h_restart : bool
}.

(** A stored plan, as far as the application reads it. *)
Record plan : Type := mkPlan {
  plan_id : Z;
  created_at : string
}.

(** What a rejected request carries: [err.code], [err.response] with its
    [data.error], and [err.message]. *)
Record apiError : Type := mkApiError {
  code : option string;
  response : option (option string);
  message : option string
}.

Inductive reply : Type :=
| Resolved (data : plan)
| Rejected (err : apiError).

(** [planTrip(form)]: the body it posts, and what [api.post] answers. *)
Definition planTrip (post : request -> reply) (f : form) : request * reply :=
  let body :=
    {| current_location := currentLocation f;
       pickup_location := pickupLocation f;
       dropoff_location := dropoffLocation f;
       current_cycle_used := or (parseFloat (currentCycleUsed f)) (Fin 0);
       cycle_rule := "70_8";
       adverse_driving_conditions := false;
       short_haul_mode := "none";
       use_16_hour_exception := false;
       used_16_hour_in_last_7_days := false;
       return_to_reporting_location := true;
       enable_34h_restart := true |} in
  (body, post body).

(** Two numbers with the same value. *)
Definition sameNumber (a b : number) : Prop :=
  match a, b with
  | Fin x, Fin y => x == y
  | NaN, NaN | PosInf, PosInf | NegInf, NegInf => True
  | _, _ => False
  end.

Lemma or_zero (x : number) :
  (x = NaN -> or x (Fin 0) = Fin 0)
  /\ (x <> NaN -> sameNumber (or x (Fin 0)) x).
Proof.
  split.
  - intros ->. reflexivity.
  - intro H. unfold or.
    destruct x as [q | | |]; simpl; try tauto.
    destruct (Qeq_bool q 0) eqn:E; simpl.
    + apply Qeq_bool_iff in E. now symmetry.
    + reflexivity.
Qed.

(** C5.  Whatever the form holds and whatever the server answers, the body
    that [planTrip] posts has the seven rule fields fixed, carries the value
    [parseFloat] reads from the cycle field, or 0 when it reads none, and is
    the body the answer is asked for. *)
Theorem planTrip_posts_fixed_rules (post : request -> reply) (f : form) :
  cycle_rule (fst (planTrip post f)) = "70_8"%string
  /\ adverse_driving_conditions (fst (planTrip post f)) = false
  /\ short_haul_mode (fst (planTrip post f)) = "none"%string
  /\ use_16_hour_exception (fst (planTrip post f)) = false
  /\ used_16_hour_in_last_7_days (fst (planTrip post f)) = false
  /\ return_to_reporting_location (fst (planTrip post f)) = true
  /\ enable_34h_restart (fst (planTrip post f)) = true
  /\ (parseFloat (currentCycleUsed f) = NaN ->
      current_cycle_used (fst (planTrip post f)) = Fin 0)
  /\ (parseFloat (currentCycleUsed f) <> NaN ->
      sameNumber (current_cycle_used (fst (planTrip post f)))
                 (parseFloat (currentCycleUsed f)))
  /\ snd (planTrip post f) = post (fst (planTrip post f)).
Proof.
  unfold planTrip. simpl.
  destruct (or_zero (parseFloat (currentCycleUsed f))) as [Z NZ].
  repeat split; auto.
Qed.

Example planTrip_cycle_examples :
  forall post,
    current_cycle_used (fst (planTrip post (mkForm "" "" "" "12.5"))) = Fin (125 # 10)
    /\ current_cycle_used (fst (planTrip post (mkForm "" "" "" "abc"))) = Fin 0
    /\ current_cycle_used (fst (planTrip post (mkForm "" "" "" ""))) = Fin 0
    /\ current_cycle_used (fst (planTrip post (mkForm "" "" "" " 7 hours"))) = Fin 7.
Proof. intro post. repeat split; vm_compute; reflexivity. Qed.

End TripService.

(* ================================================================== *)
(** ** App.jsx *)
(* ================================================================== *)

Module App.

Import JS.
Import TripService.

Local Open Scope string_scope.

Definition isCoordinatePair (value : string) : bool :=
  match map trim (splitComma value) with
  | [a; b] =>
      let lat := StringToNumber a in
      let lng := StringToNumber b in
      isFinite lat && isFinite lng
      && geb lat (Fin (-90)) && leb lat (Fin 90)
      && geb lng (Fin (-180)) && leb lng (Fin 180)
  | _ => false
  end.

(** The state of the component that [handleSubmit] reads and sets. *)
Record state : Type := mkState {
  form_ : form;
  loading : bool;
  error : option string;
  tripData : option plan;
  tripPlans : list plan;
  activeTab : string
}.

Definition setError (st : state) (msg : option string) : state :=
  mkState (form_ st) (loading st) msg (tripData st) (tripPlans st)
          (activeTab st).

Definition isEmpty (s : string) : bool :=
  match s with EmptyString => true | _ => false end.

(** The updater handed to [setTripPlans]:
    [[data, ...prev.filter(p => p.plan_id !== data.plan_id)].slice(0, 10)]. *)
Definition savePlan (prev : list plan) (data : plan) : list plan :=
  firstn 10
    (data :: filter (fun p => negb (Z.eqb (plan_id p) (plan_id data))) prev).

(** The message of the [catch] branch. *)
Definition failureMessage (err : apiError) : string :=
  let timedOut :=
    match code err with
    | Some c => String.eqb c "ECONNABORTED"
    | None => false
    end in
  if timedOut then "Request timed out. Please try again."
  else
    match response err with
    | None => "Cannot reach the server. Check your connection and API URL."
    | Some dataError =>
        match dataError with
        | Some (String c s) => String c s
        | _ =>
            match message err with
            | Some m => m
            | None => "Unable to plan this trip right now. Please try again."
            end
        end
    end.

(** [handleSubmit]: the state it leaves, and the request it posted if it
    posted one.  [post] answers the request. *)
Definition handleSubmit (post : request -> reply) (st : state)
  : state * option request :=
  if loading st then (st, None)
  else
    let f := form_ st in
    let cycleUsedRaw := trim (currentCycleUsed f) in
    let cycleUsed :=
      if isEmpty cycleUsedRaw then Fin 0 else parseFloat cycleUsedRaw in
    if isEmpty (trim (currentLocation f))
       || isEmpty (trim (pickupLocation f))
       || isEmpty (trim (dropoffLocation f))
    then (setError st (Some "Please fill in all three locations."), None)
    else if negb (isCoordinatePair (currentLocation f))
            || negb (isCoordinatePair (pickupLocation f))
            || negb (isCoordinatePair (dropoffLocation f))
    then (setError st
            (Some "Use coordinates in 'lat,lng' format for all three locations."),
          None)
    else if isNaN cycleUsed || ltb cycleUsed (Fin 0) || gtb cycleUsed (Fin 70)
    then (setError st
            (Some "Current Cycle Used must be a number between 0 and 70."),
          None)
    else
      let '(body, answer) := planTrip post f in
      match answer with
      | Resolved data =>
          (mkState f false None (Some data) (savePlan (tripPlans st) data)
                   "map",
           Some body)
      | Rejected err =>
          (mkState f false (Some (failureMessage err)) (tripData st)
                   (tripPlans st) (activeTab st),
           Some body)
      end.






(** *** [trim] and [Number] *)

Lemma trimStartL_length (l : list ascii) :
  (List.length (trimStartL l) <= List.length l)%nat.
Proof.
  induction l as [| c l IH]; simpl; [lia |].
  destruct (isWhite c); simpl; lia.
Qed.

Lemma trimStartL_head (c : ascii) (r : list ascii) :
  trimStartL (c :: r) = c :: r -> isWhite c = false.
Proof.
  simpl. destruct (isWhite c); [| reflexivity].
  intro H. pose proof (trimStartL_length r) as L.
  rewrite H in L. simpl in L. lia.
Qed.

Lemma trimStartL_idem (l : list ascii) :
  trimStartL (trimStartL l) = trimStartL l.
Proof.
  induction l as [| c l IH]; simpl; [reflexivity |].
  destruct (isWhite c) eqn:E; [exact IH |].
  simpl. now rewrite E.
Qed.

Lemma trimStartL_split (l : list ascii) :
  exists w, l = (w ++ trimStartL l)%list.
Proof.
  induction l as [| c l [w IH]]; simpl.
  - exists []. reflexivity.
  - destruct (isWhite c).
    + exists (c :: w). simpl. now rewrite <- IH.
    + exists []. reflexivity.
Qed.

Lemma trimL_idem (l : list ascii) : trimL (trimL l) = trimL l.
Proof.
  unfold trimL.
  set (t := trimStartL l).
  set (u := trimStartL (rev t)).
  assert (Ht : trimStartL t = t) by apply trimStartL_idem.
  assert (Hu : trimStartL u = u) by apply trimStartL_idem.
  assert (Hm : trimStartL (rev u) = rev u).
  { destruct (trimStartL_split (rev t)) as [w Hw]. fold u in Hw.
    assert (E : t = (rev u ++ rev w)%list).
    { rewrite <- (rev_involutive t), Hw. apply rev_app_distr. }
    destruct (rev u) as [| c m'] eqn:Er; [reflexivity |].
    rewrite E in Ht. simpl in Ht. apply trimStartL_head in Ht.
    simpl. now rewrite Ht. }
  rewrite Hm, rev_involutive, Hu. reflexivity.
Qed.

Lemma StringToNumber_trim (s : string) :
  StringToNumber (trim s) = StringToNumber s.
Proof.
  unfold StringToNumber, trim.
  now rewrite list_ascii_of_string_of_list_ascii, trimL_idem.
Qed.

Lemma trimL_nil (l : list ascii) : trimL l = [] -> trimStartL l = [].
Proof.
  unfold trimL. intro H.
  apply (f_equal (@rev ascii)) in H. rewrite rev_involutive in H.
  simpl in H.
  destruct (trimStartL_split (rev (trimStartL l))) as [w Hw].
  rewrite H, app_nil_r in Hw.
  pose proof (trimStartL_idem l) as I.
  destruct (trimStartL l) as [| c r] eqn:E; [reflexivity |].
  exfalso.
  apply trimStartL_head in I.
  assert (W : forall x, trimStartL x = [] -> Forall (fun a => isWhite a = true) x).
  { induction x as [| a x IH]; simpl; [constructor |].
    destruct (isWhite a) eqn:Ea; [| discriminate].
    intro Hx. constructor; auto. }
  apply W in H. rewrite Forall_forall in H.
  specialize (H c). rewrite I in H.
  assert (In c (rev (c :: r))) by (apply in_rev; rewrite rev_involutive; now left).
  specialize (H H0). discriminate.
Qed.

(** A blank field: [parseFloat] finds no number in it. *)
Lemma parseFloat_blank (s : string) :
  trim s = "" -> parseFloat s = NaN.
Proof.
  unfold trim, parseFloat. intro H.
  assert (E : trimL (list_ascii_of_string s) = []).
  { destruct (trimL (list_ascii_of_string s)); [reflexivity | discriminate]. }
  apply trimL_nil in E. now rewrite E.
Qed.

(** *** [isCoordinatePair] *)

(** [value] is two comma-separated parts whose numeric values are finite,
    the first within [-90, 90] and the second within [-180, 180]. *)
Definition coordinatesWithinBounds (value : string) : Prop :=
  exists a b lat lng,
    splitComma value = [a; b]
    /\ StringToNumber a = Fin lat /\ StringToNumber b = Fin lng
    /\ (-90 <= lat /\ lat <= 90)%Q
    /\ (-180 <= lng /\ lng <= 180)%Q.

Lemma isCoordinatePair_iff (value : string) :
  isCoordinatePair value = true <-> coordinatesWithinBounds value.
Proof.
  unfold isCoordinatePair, coordinatesWithinBounds.
  destruct (splitComma value) as [| a [| b [| c r]]]; simpl;
    try (split; [discriminate | intros (? & ? & ? & ? & H & _); discriminate]).
  rewrite !StringToNumber_trim.
  split.
  - destruct (StringToNumber a) as [lat | | |] eqn:Ea; try discriminate;
      destruct (StringToNumber b) as [lng | | |] eqn:Eb; try discriminate.
    unfold geb, leb. simpl. rewrite !andb_true_iff, !Qle_bool_iff.
    intros H. exists a, b, lat, lng. tauto.
  - intros (a' & b' & lat & lng & E & Ha & Hb & Hlat & Hlng).
    injection E as <- <-. rewrite Ha, Hb.
    unfold geb, leb. simpl. rewrite !andb_true_iff, !Qle_bool_iff. tauto.
Qed.

(** *** [handleSubmit] *)

Lemma handleSubmit_posted (post : request -> reply) (st st' : state)
    (req : request) :
  handleSubmit post st = (st', Some req) ->
  loading st = false
  /\ isCoordinatePair (currentLocation (form_ st)) = true
  /\ isCoordinatePair (pickupLocation (form_ st)) = true
  /\ isCoordinatePair (dropoffLocation (form_ st)) = true
  /\ req = fst (planTrip post (form_ st))
  /\ st' = match post req with
           | Resolved data =>
               mkState (form_ st) false None (Some data)
                       (savePlan (tripPlans st) data) "map"
           | Rejected err =>
               mkState (form_ st) false (Some (failureMessage err))
                       (tripData st) (tripPlans st) (activeTab st)
           end.
Proof.
  unfold handleSubmit.
  destruct (loading st); [discriminate |].
  destruct (_ || _ || _); [discriminate |].
  destruct (isCoordinatePair (currentLocation (form_ st)));
    [| discriminate].
  destruct (isCoordinatePair (pickupLocation (form_ st)));
    [| discriminate].
  destruct (isCoordinatePair (dropoffLocation (form_ st)));
    [| discriminate].
  simpl negb. cbn [orb].
  destruct (_ || _ || _); [discriminate |].
  unfold planTrip. cbv zeta.
  destruct (post _) eqn:P; intro H; injection H as <- <-;
    cbn [fst]; rewrite P; repeat split; reflexivity.
Qed.

Lemma handleSubmit_not_posted (post : request -> reply) (st st' : state) :
  handleSubmit post st = (st', None) ->
  tripData st' = tripData st /\ tripPlans st' = tripPlans st.
Proof.
  unfold handleSubmit.
  destruct (loading st); [intro H; injection H as <-; auto |].
  destruct (_ || _ || _); [intro H; injection H as <-; auto |].
  destruct (_ || _ || _); [intro H; injection H as <-; auto |].
  destruct (_ || _ || _); [intro H; injection H as <-; auto |].
  unfold planTrip. cbv zeta. destruct (post _); discriminate.
Qed.

(** C4.  [isCoordinatePair] holds exactly of the strings with two
    comma-separated parts whose numeric values are finite and within the
    latitude and longitude bounds; [handleSubmit] posts a request only when
    the three locations pass it, and the request carries those strings. *)
Theorem request_only_for_coordinate_pairs :
  (forall value,
      isCoordinatePair value = true <-> coordinatesWithinBounds value)
  /\ (forall post st st' req,
         handleSubmit post st = (st', Some req) ->
         (isCoordinatePair (currentLocation (form_ st)) = true
          /\ isCoordinatePair (pickupLocation (form_ st)) = true
          /\ isCoordinatePair (dropoffLocation (form_ st)) = true)
         /\ (current_location req = currentLocation (form_ st)
             /\ pickup_location req = pickupLocation (form_ st)
             /\ dropoff_location req = dropoffLocation (form_ st))
         /\ (coordinatesWithinBounds (current_location req)
             /\ coordinatesWithinBounds (pickup_location req)
             /\ coordinatesWithinBounds (dropoff_location req))).
Proof.
  split; [exact isCoordinatePair_iff |].
  intros post st st' req H.
  apply handleSubmit_posted in H.
  destruct H as (_ & C1 & C2 & C3 & -> & _).
  unfold planTrip. cbn [fst current_location pickup_location dropoff_location].
  rewrite <- !isCoordinatePair_iff. tauto.
Qed.

Definition chicagoDenverLA : form :=
  mkForm "41.8781, -87.6298" "39.7392,-104.9903" " 34.0522 , -118.2437 "
         "12.5".

Definition planSeven (r : request) : reply := Resolved (mkPlan 7 "2026-01-05").

Definition offline (r : request) : reply :=
  Rejected (mkApiError None None (Some "Network Error")).

Definition idle (f : form) (saved : list plan) : state :=
  mkState f false None None saved "eld".

Lemma request_only_for_coordinate_pairs_witness :
  coordinatesWithinBounds "41.8781, -87.6298"
  /\ coordinatesWithinBounds "39.7392,-104.9903"
  /\ coordinatesWithinBounds " 34.0522 , -118.2437 ".
Proof.
  exact (proj2 (proj2 (proj2 request_only_for_coordinate_pairs
                         planSeven (idle chicagoDenverLA []) _ _ eq_refl))).
Defined.

(** *** The cycle field *)

(** The three locations pass the first two checks of [handleSubmit]. *)
Definition locationsAccepted (f : form) : bool :=
  negb (isEmpty (trim (currentLocation f))
        || isEmpty (trim (pickupLocation f))
        || isEmpty (trim (dropoffLocation f)))
  && (isCoordinatePair (currentLocation f)
      && isCoordinatePair (pickupLocation f)
      && isCoordinatePair (dropoffLocation f)).

(** What the cycle check of [handleSubmit] refuses. *)
Definition outOfCycleRange (n : number) : bool :=
  isNaN n || ltb n (Fin 0) || gtb n (Fin 70).






(** *** The saved plans *)








Definition threeSaved : list plan :=
  [mkPlan 3 "2026-01-02"; mkPlan 7 "2026-01-01"; mkPlan 4 "2025-12-30"].





(* ---------------------------------------------------------------- *)
(** *** When [handleSubmit] posts, and what it changes *)

(** The cycle field passes the third check of [handleSubmit]. *)
Definition cycleAccepted (f : form) : bool :=
  isEmpty (trim (currentCycleUsed f))
  || negb (outOfCycleRange (parseFloat (trim (currentCycleUsed f)))).

Lemma handleSubmit_posts_when (post : request -> reply) (st : state) :
  (exists st' req, handleSubmit post st = (st', Some req))
  <-> loading st = false
      /\ locationsAccepted (form_ st) = true
      /\ cycleAccepted (form_ st) = true.
Proof.
  unfold handleSubmit, locationsAccepted, cycleAccepted, outOfCycleRange.
  destruct (loading st).
  { split; [intros (? & ? & H); discriminate | intros (H & _); discriminate]. }
  destruct (isEmpty (trim (currentLocation (form_ st)))
            || isEmpty (trim (pickupLocation (form_ st)))
            || isEmpty (trim (dropoffLocation (form_ st)))).
  { split; [intros (? & ? & H); discriminate
           | intros (_ & H & _); discriminate]. }
  destruct (isCoordinatePair (currentLocation (form_ st)));
    destruct (isCoordinatePair (pickupLocation (form_ st)));
    destruct (isCoordinatePair (dropoffLocation (form_ st)));
    cbn [negb orb andb];
    try (split; [intros (? & ? & H); discriminate
                | intros (_ & H & _); discriminate]).
  destruct (isEmpty (trim (currentCycleUsed (form_ st)))).
  - cbn. unfold planTrip. cbv zeta.
    split; [auto |]. intros _.
    destruct (post _); eexists; eexists; reflexivity.
  - cbn [orb].
    destruct (isNaN _ || ltb _ (Fin 0) || gtb _ (Fin 70)); cbn [negb].
    + split; [intros (? & ? & H); discriminate
             | intros (_ & _ & H); discriminate].
    + unfold planTrip. cbv zeta.
      split; [auto |]. intros _.
      destruct (post _); eexists; eexists; reflexivity.
Qed.

(** X6.  [handleSubmit] posts a request exactly when no submission is in
    progress, the three locations are non-blank coordinate pairs, and the
    cycle field is blank or parses to a number from 0 to 70. *)
Theorem handleSubmit_posts_iff (post : request -> reply) (st : state) :
  (exists st' req, handleSubmit post st = (st', Some req))
  <-> loading st = false
      /\ locationsAccepted (form_ st) = true
      /\ cycleAccepted (form_ st) = true.
Proof. apply handleSubmit_posts_when. Qed.

Lemma handleSubmit_effect (post : request -> reply) (st : state) :
  form_ (fst (handleSubmit post st)) = form_ st
  /\ ((tripData (fst (handleSubmit post st)) = tripData st
       /\ tripPlans (fst (handleSubmit post st)) = tripPlans st
       /\ activeTab (fst (handleSubmit post st)) = activeTab st)
      \/ exists req data,
           snd (handleSubmit post st) = Some req
           /\ post req = Resolved data
           /\ tripData (fst (handleSubmit post st)) = Some data
           /\ tripPlans (fst (handleSubmit post st))
              = savePlan (tripPlans st) data
           /\ activeTab (fst (handleSubmit post st)) = "map"
           /\ error (fst (handleSubmit post st)) = None).
Proof.
  destruct (handleSubmit post st) as [st' [req |]] eqn:E; cbn [fst snd].
  - apply handleSubmit_posted in E.
    destruct E as (_ & _ & _ & _ & _ & ->).
    destruct (post req) as [data | err] eqn:P; cbn.
    + split; [reflexivity |]. right. exists req, data. auto 10.
    + auto.
  - assert (F : form_ st' = form_ st).
    { revert E. unfold handleSubmit.
      destruct (loading st); [intro H; injection H as <-; auto |].
      destruct (_ || _ || _); [intro H; injection H as <-; auto |].
      destruct (_ || _ || _); [intro H; injection H as <-; auto |].
      destruct (_ || _ || _); [intro H; injection H as <-; auto |].
      unfold planTrip. cbv zeta. destruct (post _); discriminate. }
    assert (A : activeTab st' = activeTab st).
    { revert E. unfold handleSubmit.
      destruct (loading st); [intro H; injection H as <-; auto |].
      destruct (_ || _ || _); [intro H; injection H as <-; auto |].
      destruct (_ || _ || _); [intro H; injection H as <-; auto |].
      destruct (_ || _ || _); [intro H; injection H as <-; auto |].
      unfold planTrip. cbv zeta. destruct (post _); discriminate. }
    apply handleSubmit_not_posted in E. split; [exact F |]. left. tauto.
Qed.

(** X7.  [handleSubmit] never edits the form, and it leaves the plan on
    display, the saved plans and the active tab as they were unless the
    server answers with a plan; then that plan is displayed, saved first,
    the map tab is opened and the error is cleared. *)
Theorem handleSubmit_changes_plans_only_on_success
    (post : request -> reply) (st : state) :
  form_ (fst (handleSubmit post st)) = form_ st
  /\ ((tripData (fst (handleSubmit post st)) = tripData st
       /\ tripPlans (fst (handleSubmit post st)) = tripPlans st
       /\ activeTab (fst (handleSubmit post st)) = activeTab st)
      \/ exists req data,
           snd (handleSubmit post st) = Some req
           /\ post req = Resolved data
           /\ tripData (fst (handleSubmit post st)) = Some data
           /\ tripPlans (fst (handleSubmit post st))
              = savePlan (tripPlans st) data
           /\ activeTab (fst (handleSubmit post st)) = "map"
           /\ error (fst (handleSubmit post st)) = None).
Proof. apply handleSubmit_effect. Qed.

(* ---------------------------------------------------------------- *)
(** *** The saved plans: resubmission and eviction *)

Definition otherThan (data : plan) (p : plan) : bool :=
  negb (Z.eqb (plan_id p) (plan_id data)).

Lemma savePlan_cons (prev : list plan) (data : plan) :
  savePlan prev data = data :: firstn 9 (filter (otherThan data) prev).
Proof. reflexivity. Qed.

Lemma filter_all {A : Type} (f : A -> bool) (l : list A) :
  Forall (fun x => f x = true) l -> filter f l = l.
Proof.
  induction 1 as [| x l Hx _ IH]; simpl; [reflexivity |].
  now rewrite Hx, IH.
Qed.

Lemma firstn_filter_Forall {A : Type} (f : A -> bool) (n : nat) (l : list A) :
  Forall (fun x => f x = true) (firstn n (filter f l)).
Proof.
  apply Forall_forall. intros x Hx.
  assert (I : In x (filter f l)).
  { rewrite <- (firstn_skipn n (filter f l)). apply in_or_app. now left. }
  apply filter_In in I. tauto.
Qed.

(** X8.  Submitting again a plan with the id of the plan just saved
    replaces that entry and nothing else: the list is the one the second
    submission alone would have given. *)
Theorem savePlan_resubmitted (prev : list plan) (first again : plan) :
  plan_id again = plan_id first ->
  savePlan (savePlan prev first) again = savePlan prev again.
Proof.
  intro E. rewrite !savePlan_cons.
  assert (O : otherThan again = otherThan first).
  { unfold otherThan. now rewrite E. }
  rewrite O. f_equal. cbn [filter].
  unfold otherThan at 1. rewrite Z.eqb_refl. cbn [negb].
  rewrite (filter_all _ _ (firstn_filter_Forall (otherThan first) 9 prev)).
  rewrite firstn_firstn. reflexivity.
Qed.

Lemma savePlan_resubmitted_witness :
  savePlan (savePlan threeSaved (mkPlan 9 "2026-01-05"))
           (mkPlan 9 "2026-01-06")
  = savePlan threeSaved (mkPlan 9 "2026-01-06").
Proof.
  apply (savePlan_resubmitted threeSaved (mkPlan 9 "2026-01-05")
           (mkPlan 9 "2026-01-06")).
  reflexivity.
Defined.

(** X9.  While fewer than ten plans are saved a submission evicts none:
    the new plan comes first and every earlier plan with another id
    follows, in the order it had. *)
Theorem savePlan_keeps_all_below_ten (prev : list plan) (data : plan) :
  (List.length prev < 10)%nat ->
  savePlan prev data = data :: filter (otherThan data) prev
  /\ forall p, In p prev -> plan_id p <> plan_id data ->
               In p (savePlan prev data).
Proof.
  intro L.
  assert (E : savePlan prev data = data :: filter (otherThan data) prev).
  { rewrite savePlan_cons. f_equal. apply firstn_all2.
    pose proof (filter_length_le (otherThan data) prev). lia. }
  split; [exact E |].
  intros p I N. rewrite E. right. apply filter_In. split; [exact I |].
  unfold otherThan. apply negb_true_iff, Z.eqb_neq, N.
Qed.

Lemma savePlan_keeps_all_below_ten_witness :
  savePlan threeSaved (mkPlan 9 "2026-01-05")
  = mkPlan 9 "2026-01-05"
    :: filter (otherThan (mkPlan 9 "2026-01-05")) threeSaved
  /\ forall p, In p threeSaved -> plan_id p <> 9%Z ->
               In p (savePlan threeSaved (mkPlan 9 "2026-01-05")).
Proof.
  apply (savePlan_keeps_all_below_ten threeSaved (mkPlan 9 "2026-01-05")).
  simpl. lia.
Defined.


(* ---------------------------------------------------------------- *)
(** *** Commas and blanks in a location *)

Fixpoint commas (s : string) : nat :=
  match s with
  | EmptyString => 0
  | String c s' => (if Ascii.eqb c ","%char then 1 else 0) + commas s'
  end.

Lemma splitComma_length (s : string) :
  List.length (splitComma s) = S (commas s).
Proof.
  induction s as [| c s IH]; [reflexivity |].
  cbn [splitComma commas].
  destruct (Ascii.eqb c ","%char); cbn [List.length].
  - now rewrite IH.
  - destruct (splitComma s) as [| p ps]; [discriminate IH |].
    cbn [List.length] in *. lia.
Qed.

(** X13.  A location passes [isCoordinatePair] only if it holds exactly one
    comma. *)
Theorem isCoordinatePair_one_comma (value : string) :
  isCoordinatePair value = true -> commas value = 1%nat.
Proof.
  unfold isCoordinatePair. intro H.
  pose proof (splitComma_length value) as L.
  destruct (splitComma value) as [| a [| b [| c r]]];
    try discriminate H.
  cbn [List.length] in L. lia.
Qed.

Lemma isCoordinatePair_one_comma_witness :
  commas "41.8781, -87.6298" = 1%nat.
Proof.
  apply (isCoordinatePair_one_comma "41.8781, -87.6298"). reflexivity.
Defined.

(** Every character of [s] is white space. *)
Definition blank (s : string) : Prop :=
  Forall (fun c => isWhite c = true) (list_ascii_of_string s).

Lemma trimStartL_blank (l : list ascii) :
  Forall (fun c => isWhite c = true) l -> trimStartL l = [].
Proof.
  induction 1 as [| c l Hc _ IH]; simpl; [reflexivity |].
  now rewrite Hc.
Qed.

Lemma StringToNumber_blank (s : string) :
  blank s -> StringToNumber s = Fin 0.
Proof.
  unfold blank, StringToNumber, trimL. intro B.
  now rewrite (trimStartL_blank _ B).
Qed.

Lemma white_not_comma (c : ascii) :
  isWhite c = true -> Ascii.eqb c ","%char = false.
Proof.
  intro W. destruct (Ascii.eqb c ","%char) eqn:E; [| reflexivity].
  apply Ascii.eqb_eq in E. subst c. discriminate W.
Qed.

Lemma splitComma_blank (s : string) : blank s -> splitComma s = [s].
Proof.
  unfold blank. induction s as [| c s IH]; simpl; intro B; [reflexivity |].
  inversion B as [| ? ? Wc Bs]; subst.
  rewrite (white_not_comma _ Wc), (IH Bs). reflexivity.
Qed.

Lemma splitComma_blank_comma (a b : string) :
  blank a -> blank b -> splitComma (a ++ "," ++ b) = [a; b].
Proof.
  unfold blank at 1. induction a as [| c a IH]; simpl; intros Ba Bb.
  - now rewrite (splitComma_blank _ Bb).
  - inversion Ba as [| ? ? Wc Bs]; subst.
    rewrite (white_not_comma _ Wc). simpl in IH. now rewrite (IH Bs Bb).
Qed.

(** X14.  A location that is nothing but a comma, with or without blanks
    around it, passes [isCoordinatePair]: each empty part counts as the
    number 0. *)
Theorem isCoordinatePair_blank_parts (a b : string) :
  blank a -> blank b -> isCoordinatePair (a ++ "," ++ b) = true.
Proof.
  intros Ba Bb. unfold isCoordinatePair.
  rewrite (splitComma_blank_comma _ _ Ba Bb). cbn [map].
  rewrite !StringToNumber_trim.
  rewrite (StringToNumber_blank _ Ba), (StringToNumber_blank _ Bb).
  reflexivity.
Qed.

Lemma isCoordinatePair_blank_parts_witness :
  isCoordinatePair (" " ++ "," ++ "") = true.
Proof.
  apply (isCoordinatePair_blank_parts " " ""); repeat constructor.
Defined.

(* ---------------------------------------------------------------- *)
(** *** The cycle value that is posted *)

Definition white (w : list ascii) : Prop :=
  Forall (fun c => isWhite c = true) w.

Lemma white_digit (c : ascii) : isWhite c = true -> digitOf 10 c = None.
Proof.
  destruct c as [[] [] [] [] [] [] [] []]; intro H;
    try discriminate H; reflexivity.
Qed.

Lemma white_other (c d : ascii) :
  isWhite c = true -> isWhite d = false -> Ascii.eqb c d = false.
Proof.
  intros Wc Wd. destruct (Ascii.eqb c d) eqn:E; [| reflexivity].
  apply Ascii.eqb_eq in E. congruence.
Qed.

Lemma digits_app_white (w : list ascii) :
  white w ->
  forall m acc cnt,
    digits 10 acc cnt (m ++ w)%list
    = let '(v, n, r) := digits 10 acc cnt m in (v, n, (r ++ w)%list).
Proof.
  intros W m. induction m as [| c m IH]; intros acc cnt.
  - cbn [app digits]. destruct W as [| c w Wc _]; [reflexivity |].
    cbn [digits]. now rewrite (white_digit _ Wc).
  - cbn [app digits]. destruct (digitOf 10 c); [apply IH | reflexivity].
Qed.

Lemma startsWith_app_white (w : list ascii) :
  white w ->
  forall p m,
    Forall (fun c => isWhite c = false) p ->
    startsWith p (m ++ w)%list
    = option_map (fun r => (r ++ w)%list) (startsWith p m).
Proof.
  intros W p. induction p as [| a p IH]; intros m P.
  - destruct m; reflexivity.
  - inversion P as [| ? ? Pa Pp]; subst.
    destruct m as [| b m]; cbn [app startsWith].
    + destruct W as [| c w Wc _]; [reflexivity |].
      cbn [startsWith].
      rewrite Ascii.eqb_sym, (white_other _ _ Wc Pa). reflexivity.
    + destruct (Ascii.eqb a b); [apply IH, Pp | reflexivity].
Qed.

Lemma exponentPart_app_white (w : list ascii) :
  white w ->
  forall m,
    exponentPart (m ++ w)%list
    = let '(e, r) := exponentPart m in (e, (r ++ w)%list).
Proof.
  intros W m.
  assert (D0 : digits 10 0 0 w = (0%Z, 0%nat, w)).
  { destruct W as [| c w Wc _]; [reflexivity |].
    cbn [digits]. now rewrite (white_digit _ Wc). }
  destruct m as [| c m1].
  - cbn [app exponentPart]. destruct W as [| c w Wc Ww]; [reflexivity |].
    cbn [exponentPart].
    rewrite (white_other c "e"%char Wc eq_refl),
            (white_other c "E"%char Wc eq_refl). reflexivity.
  - cbn [app exponentPart].
    destruct (Ascii.eqb c "e"%char || Ascii.eqb c "E"%char);
      [| reflexivity].
    destruct m1 as [| d t].
    + cbn [app].
      assert (S1 : match w with
                   | d :: t =>
                       if Ascii.eqb d "+"%char then (1%Z, t)
                       else if Ascii.eqb d "-"%char then ((-1)%Z, t)
                       else (1%Z, w)
                   | [] => (1%Z, w)
                   end = (1%Z, w)).
      { destruct W as [| d w Wd _]; [reflexivity |].
        rewrite (white_other d "+"%char Wd eq_refl),
                (white_other d "-"%char Wd eq_refl). reflexivity. }
      rewrite S1, D0. reflexivity.
    + cbn [app].
      destruct (Ascii.eqb d "+"%char);
        [| destruct (Ascii.eqb d "-"%char)].
      * rewrite (digits_app_white w W t 0%Z 0%nat).
        destruct (digits 10 0 0 t) as [[v n] r]. destruct n; reflexivity.
      * rewrite (digits_app_white w W t 0%Z 0%nat).
        destruct (digits 10 0 0 t) as [[v n] r]. destruct n; reflexivity.
      * change (d :: (t ++ w)%list) with ((d :: t) ++ w)%list.
        rewrite (digits_app_white w W (d :: t) 0%Z 0%nat).
        destruct (digits 10 0 0 (d :: t)) as [[v n] r].
        destruct n; reflexivity.
Qed.

(** What a scan of [m] gives and what the scan of [m] followed by white
    space gives: the same number, the white space left over. *)
Definition sameScan (w : list ascii)
    (o o' : option (number * list ascii)) : Prop :=
  match o, o' with
  | None, None => True
  | Some (n, r), Some (n', r') => sameNumber n n' /\ r' = (r ++ w)%list
  | _, _ => False
  end.

Lemma sameNumber_refl (n : number) : sameNumber n n.
Proof. destruct n; simpl; auto. reflexivity. Qed.

Lemma unsignedDecimal_app_white (w : list ascii) (m : list ascii) :
  white w ->
  sameScan w (unsignedDecimal m) (unsignedDecimal (m ++ w)%list).
Proof.
  intro W. unfold unsignedDecimal.
  rewrite (startsWith_app_white w W _ m)
    by (repeat constructor).
  destruct (startsWith (list_ascii_of_string "Infinity") m) as [rest |];
    cbn [option_map].
  { simpl. auto. }
  rewrite (digits_app_white w W m 0%Z 0%nat).
  destruct (digits 10 0 0 m) as [[i ni] s1].
  destruct s1 as [| c s2].
  - cbn [app].
    destruct W as [| c w Wc Ww].
    + destruct ni; simpl; [exact I |].
      split; [reflexivity | reflexivity].
    + rewrite (white_other c "."%char Wc eq_refl).
      destruct ni; [exact I |].
      assert (E : exponentPart (c :: w) = (0%Z, c :: w)).
      { cbn [exponentPart].
        rewrite (white_other c "e"%char Wc eq_refl),
                (white_other c "E"%char Wc eq_refl). reflexivity. }
      rewrite E. simpl. split; [| reflexivity].
      unfold pow10. simpl. ring.
  - cbn [app].
    destruct (Ascii.eqb c "."%char).
    + rewrite (digits_app_white w W s2 0%Z 0%nat).
      destruct (digits 10 0 0 s2) as [[f nf] s3].
      assert (G : sameScan w
                    (let '(e, s4) := exponentPart s3 in
                     Some (Fin ((inject_Z i
                                 + inject_Z f * pow10 (- Z.of_nat nf))
                                * pow10 e), s4))
                    (let '(e, s4) := exponentPart (s3 ++ w)%list in
                     Some (Fin ((inject_Z i
                                 + inject_Z f * pow10 (- Z.of_nat nf))
                                * pow10 e), s4))).
      { rewrite (exponentPart_app_white w W s3).
        destruct (exponentPart s3) as [e s4]. simpl.
        split; reflexivity. }
      destruct ni, nf; try exact G. exact I.
    + destruct ni; [exact I |].
      change (c :: (s2 ++ w)%list) with ((c :: s2) ++ w)%list.
      rewrite (exponentPart_app_white w W (c :: s2)).
      destruct (exponentPart (c :: s2)) as [e s4]. simpl.
      split; reflexivity.
Qed.

Lemma sameNumber_negate (a b : number) :
  sameNumber a b -> sameNumber (negate a) (negate b).
Proof.
  destruct a, b; simpl; auto. intro H. now rewrite H.
Qed.

Lemma signedDecimal_app_white (w : list ascii) (m : list ascii) :
  white w ->
  sameScan w (signedDecimal m) (signedDecimal (m ++ w)%list).
Proof.
  intro W. destruct m as [| c t].
  - cbn [app]. destruct W as [| c w Wc Ww]; [exact I |].
    cbn [signedDecimal].
    rewrite (white_other c "+"%char Wc eq_refl),
            (white_other c "-"%char Wc eq_refl).
    apply (unsignedDecimal_app_white (c :: w) []). now constructor.
  - cbn [app signedDecimal].
    destruct (Ascii.eqb c "+"%char);
      [apply unsignedDecimal_app_white, W |].
    destruct (Ascii.eqb c "-"%char).
    + pose proof (unsignedDecimal_app_white w t W) as U.
      destruct (unsignedDecimal t) as [[n r] |],
               (unsignedDecimal (t ++ w)%list) as [[n' r'] |];
        simpl in *; try tauto.
      split; [apply sameNumber_negate; tauto | tauto].
    + apply (unsignedDecimal_app_white w (c :: t) W).
Qed.

Lemma trimStartL_split_white (l : list ascii) :
  exists w, white w /\ l = (w ++ trimStartL l)%list.
Proof.
  induction l as [| c l (w & W & IH)]; simpl.
  - exists []. split; [constructor | reflexivity].
  - destruct (isWhite c) eqn:E.
    + exists (c :: w). split; [now constructor |]. simpl. now rewrite <- IH.
    + exists []. split; [constructor | reflexivity].
Qed.

Lemma trimStartL_trimL (l : list ascii) :
  exists w, white w
            /\ trimStartL l = (trimL l ++ w)%list
            /\ trimStartL (trimL l) = trimL l.
Proof.
  unfold trimL.
  set (t := trimStartL l).
  assert (Ht : trimStartL t = t) by apply trimStartL_idem.
  destruct (trimStartL_split_white (rev t)) as (w & W & Hw).
  set (u := trimStartL (rev t)) in *.
  assert (E : t = (rev u ++ rev w)%list).
  { rewrite <- (rev_involutive t), Hw. apply rev_app_distr. }
  exists (rev w). split; [| split; [exact E |]].
  - unfold white in *. apply Forall_forall. intros c Hc.
    rewrite Forall_forall in W. apply W, in_rev, Hc.
  - destruct (rev u) as [| c m'] eqn:Er; [reflexivity |].
    rewrite E in Ht. simpl in Ht. apply trimStartL_head in Ht.
    simpl. now rewrite Ht.
Qed.

(** [parseFloat] reads the same number from a field and from the trimmed
    field. *)
Lemma parseFloat_trim (s : string) :
  sameNumber (parseFloat (trim s)) (parseFloat s).
Proof.
  unfold parseFloat, trim.
  rewrite list_ascii_of_string_of_list_ascii.
  destruct (trimStartL_trimL (list_ascii_of_string s)) as (w & W & E1 & E2).
  rewrite E2, E1.
  pose proof (signedDecimal_app_white w (trimL (list_ascii_of_string s)) W)
    as S.
  destruct (signedDecimal (trimL (list_ascii_of_string s))) as [[n r] |],
           (signedDecimal (trimL (list_ascii_of_string s) ++ w)%list)
             as [[n' r'] |];
    simpl in S; tauto.
Qed.


(** X21.  Every request that [handleSubmit] posts carries a
    [current_cycle_used] that is a number from 0 to 70: what [planTrip]
    parses from the field is what the check of [handleSubmit] parsed from
    the trimmed field. *)
Theorem posted_cycle_within_range (post : request -> reply)
    (st st' : state) (req : request) :
  handleSubmit post st = (st', Some req) ->
  exists q, current_cycle_used req = Fin q /\ (0 <= q /\ q <= 70)%Q.
Proof.
  intro H.
  assert (A : cycleAccepted (form_ st) = true).
  { apply (handleSubmit_posts_when post st). eauto. }
  apply handleSubmit_posted in H. destruct H as (_ & _ & _ & _ & -> & _).
  unfold planTrip. cbn [fst current_cycle_used].
  unfold cycleAccepted in A. apply orb_true_iff in A.
  destruct A as [B | R].
  - assert (T : trim (currentCycleUsed (form_ st)) = "")
      by (destruct (trim (currentCycleUsed (form_ st)));
          [reflexivity | discriminate B]).
    rewrite (parseFloat_blank _ T). exists 0%Q. split; [reflexivity |].
    split; discriminate.
  - pose proof (parseFloat_trim (currentCycleUsed (form_ st))) as S.
    apply negb_true_iff in R. unfold outOfCycleRange in R.
    apply orb_false_iff in R. destruct R as [R G].
    apply orb_false_iff in R. destruct R as [N L].
    destruct (parseFloat (trim (currentCycleUsed (form_ st))))
      as [x | | |]; try discriminate.
    destruct (parseFloat (currentCycleUsed (form_ st))) as [y | | |];
      simpl in S; try contradiction.
    unfold gtb, ltb in *.
    apply ELDLog.Qltb_ge in L, G.
    unfold or. cbn [truthy].
    destruct (Qeq_bool y 0) eqn:Z; cbn [negb].
    + exists 0%Q. split; [reflexivity |]. split; discriminate.
    + exists y. split; [reflexivity |]. rewrite <- S. split; assumption.
Qed.

Lemma posted_cycle_within_range_witness :
  exists q,
    current_cycle_used (fst (planTrip planSeven chicagoDenverLA)) = Fin q
    /\ (0 <= q /\ q <= 70)%Q.
Proof.
  exact (posted_cycle_within_range planSeven (idle chicagoDenverLA [])
           _ _ eq_refl).
Defined.

End App.

(* ================================================================== *)
(** ** components/ELDLogPage.jsx: the trips listed on the log page *)
(* ================================================================== *)

Module LogPage.

Import JS.
Import TripService.

Local Open Scope string_scope.

Section Window.

(** [new Date(s).getTime()]: the milliseconds of a timestamp, [NaN] when it
    does not parse. *)
Variable getTime : string -> number.

Definition createdAtOf (p : plan) : number :=
  match created_at p with
  | EmptyString => NaN
  | s => getTime s
  end.

Definition windowHours (filterId : string) : Q :=
  if String.eqb filterId "24h" then 24
  else if String.eqb filterId "7d" then 24 * 7
  else 24 * 30.

Definition isPlanInWindow (p : plan) (filterId : string) (nowMs : number)
  : bool :=
  if String.eqb filterId "all" then true
  else
    let createdAt := createdAtOf p in
    if negb (isFinite createdAt) then false
    else leb (sub nowMs createdAt)
             (Fin (windowHours filterId * 60 * 60 * 1000)).

(** [plans]: the saved plans, or the plan on display when none is saved. *)
Definition plans (tripData : option plan) (tripPlans : list plan)
  : list plan :=
  match tripPlans with
  | _ :: _ => tripPlans
  | [] =>
      match tripData with
      | Some d => [d]
      | None => []
      end
  end.

Definition filteredPlans (tripData : option plan) (tripPlans : list plan)
    (timeFilter : string) (filterBaseTimeMs : number) : list plan :=
  filter (fun p => isPlanInWindow p timeFilter filterBaseTimeMs)
         (plans tripData tripPlans).

Lemma window_widens (p : plan) (nowMs : number) (narrow wide : Q) :
  narrow <= wide ->
  isFinite (createdAtOf p) = true ->
  leb (sub nowMs (createdAtOf p)) (Fin (narrow * 60 * 60 * 1000)) = true ->
  leb (sub nowMs (createdAtOf p)) (Fin (wide * 60 * 60 * 1000)) = true.
Proof.
  intros L F. destruct (createdAtOf p) as [c | | |]; try discriminate F.
  destruct nowMs as [n | | |]; simpl; try (intro H; exact H).
  rewrite !Qle_bool_iff. intro H. lra.
Qed.

Lemma isPlanInWindow_24h_7d (p : plan) (nowMs : number) :
  isPlanInWindow p "24h" nowMs = true -> isPlanInWindow p "7d" nowMs = true.
Proof.
  unfold isPlanInWindow. cbn [String.eqb Ascii.eqb Bool.eqb].
  destruct (isFinite (createdAtOf p)) eqn:F; [| discriminate].
  cbn [negb]. apply window_widens; [| exact F].
  unfold windowHours. simpl. lra.
Qed.

Lemma isPlanInWindow_7d_30d (p : plan) (nowMs : number) :
  isPlanInWindow p "7d" nowMs = true -> isPlanInWindow p "30d" nowMs = true.
Proof.
  unfold isPlanInWindow. cbn [String.eqb Ascii.eqb Bool.eqb].
  destruct (isFinite (createdAtOf p)) eqn:F; [| discriminate].
  cbn [negb]. apply window_widens; [| exact F].
  unfold windowHours. simpl. lra.
Qed.

Lemma filter_incl {A : Type} (f g : A -> bool) (l : list A) :
  (forall x, f x = true -> g x = true) -> incl (filter f l) (filter g l).
Proof.
  intros H x I. apply filter_In in I. apply filter_In.
  split; [tauto | apply H; tauto].
Qed.

(** X15.  The time filters nest: every trip listed under "24h" is listed
    under "7d", every trip listed under "7d" is listed under "30d", and
    "all" lists every plan. *)
Theorem filteredPlans_nest (tripData : option plan) (tripPlans : list plan)
    (nowMs : number) :
  incl (filteredPlans tripData tripPlans "24h" nowMs)
       (filteredPlans tripData tripPlans "7d" nowMs)
  /\ incl (filteredPlans tripData tripPlans "7d" nowMs)
          (filteredPlans tripData tripPlans "30d" nowMs)
  /\ filteredPlans tripData tripPlans "all" nowMs = plans tripData tripPlans.
Proof.
  unfold filteredPlans. repeat split.
  - apply filter_incl. intro p. apply isPlanInWindow_24h_7d.
  - apply filter_incl. intro p. apply isPlanInWindow_7d_30d.
  - apply App.filter_all. apply Forall_forall. intros p _. reflexivity.
Qed.

(** X16.  A plan whose [created_at] is missing or does not parse to a
    finite time is listed under the filter "all" and under no other. *)
Theorem undated_plan_only_under_all (p : plan) (filterId : string)
    (nowMs : number) :
  isFinite (createdAtOf p) = false ->
  (isPlanInWindow p filterId nowMs = true <-> filterId = "all").
Proof.
  intro F. unfold isPlanInWindow. rewrite F. cbn [negb].
  destruct (String.eqb filterId "all") eqn:E.
  - apply String.eqb_eq in E. tauto.
  - apply String.eqb_neq in E. split; [discriminate | tauto].
Qed.

End Window.

Lemma undated_plan_only_under_all_witness :
  isPlanInWindow (fun _ => Fin 0) (mkPlan 7 "") "7d" (Fin 1000) = true
  <-> "7d" = "all".
Proof.
  apply (undated_plan_only_under_all (fun _ => Fin 0) (mkPlan 7 "") "7d"
           (Fin 1000)).
  reflexivity.
Defined.



End LogPage.

(* ================================================================== *)
(** ** components/MapView.jsx *)
(* ================================================================== *)

Module MapView.

Import JS.

(** A point of the route, [[lat, lng]]. *)
Definition coordinate : Type := (number * number)%type.

Definition defaultCenter : coordinate := (Fin (395 # 10), Fin (- (9835 # 100))).

(** [center]: the middle point of the route, or the default one; [None] is
    [undefined], what an index outside the array gives. *)
Definition center (allCoords : list coordinate) : option coordinate :=
  match allCoords with
  | _ :: _ => nth_error allCoords (Nat.div (List.length allCoords) 2)
  | [] => Some defaultCenter
  end.

(** X18.  The map centre is always defined: on a route with points it is
    the point at index [floor(length / 2)], which lies inside the array and
    has as many points before it as after it, or one more; on an empty
    route it is the default centre. *)
Theorem center_is_defined (allCoords : list coordinate) :
  (allCoords = [] /\ center allCoords = Some defaultCenter)
  \/ (exists before c after,
         allCoords = before ++ c :: after
         /\ List.length before = Nat.div (List.length allCoords) 2
         /\ (List.length before = List.length after
             \/ List.length before = S (List.length after))
         /\ center allCoords = Some c).
Proof.
  destruct allCoords as [| c0 rest]; [left; split; reflexivity |].
  right. unfold center.
  set (l := c0 :: rest).
  assert (L : (Nat.div (List.length l) 2 < List.length l)%nat).
  { apply Nat.div_lt; simpl; lia. }
  destruct (nth_error l (Nat.div (List.length l) 2)) as [c |] eqn:E.
  - destruct (nth_error_split l _ E) as (before & after & E1 & E2).
    exists before, c, after.
    split; [exact E1 |]. split; [exact E2 |]. split; [| reflexivity].
    pose proof (Nat.div_mod_eq (List.length l) 2) as M.
    pose proof (Nat.mod_upper_bound (List.length l) 2) as U.
    rewrite <- E2 in M.
    assert (T : List.length l = (List.length before + S (List.length after))%nat).
    { rewrite E1 at 1. rewrite length_app. reflexivity. }
    lia.
  - apply nth_error_None in E. lia.
Qed.

End MapView.

(* ================================================================== *)
(** ** components/InputForm.jsx: the trip summary *)
(* ================================================================== *)

Module TripSummary.

Import JS.

(** A stop, as far as the summary computes with it. *)
Record stop : Type := mkStop {
  stop_type : string;
  depart_hour : value
}.

(** [Math.max(...stops.map((s) => Number(s.depart_hour) || 0), 24)]. *)
Definition lastDeparture (stops : list stop) : number :=
  fold_right (fun s most => Math_max (or (Number (depart_hour s)) (Fin 0)) most)
             (Fin 24) stops.

(** [sheetEndHour], from [trip.num_days] and the stops. *)
Definition sheetEndHour (num_days : value) (stops : list stop) : number :=
  if isFinite (Number num_days) && gtb (Number num_days) (Fin 0)
  then mul (Number num_days) (Fin 24)
  else lastDeparture stops.

Lemma or_zero_not_NaN (n : number) : or n (Fin 0) <> NaN.
Proof. unfold or. destruct n; simpl; try discriminate.
  destruct (Qeq_bool q 0); discriminate. Qed.

Lemma Math_max_geb (a b : number) :
  a <> NaN -> b <> NaN ->
  Math_max a b <> NaN
  /\ geb (Math_max a b) a = true /\ geb (Math_max a b) b = true.
Proof.
  intros Ha Hb. unfold Math_max, geb.
  destruct a as [x | | |], b as [y | | |]; try congruence; simpl;
    try (repeat split; (discriminate || reflexivity
                        || (apply Qle_bool_iff; lra))).
  unfold Qltb. destruct (Qle_bool y x) eqn:E; simpl.
  - repeat split; try discriminate; [apply Qle_bool_iff; lra | exact E].
  - assert (L : x <= y).
    { destruct (Qlt_le_dec y x) as [G | G]; [| exact G].
      assert (Qle_bool y x = true) by (apply Qle_bool_iff; lra).
      congruence. }
    repeat split; try discriminate; apply Qle_bool_iff; lra.
Qed.

Lemma geb_trans (a b c : number) :
  geb a b = true -> geb b c = true -> geb a c = true.
Proof.
  unfold geb, leb.
  destruct a as [x | | |], b as [y | | |], c as [z | | |];
    try discriminate; try reflexivity.
  rewrite !Qle_bool_iff. intros. lra.
Qed.

Lemma lastDeparture_bounds (stops : list stop) :
  lastDeparture stops <> NaN
  /\ geb (lastDeparture stops) (Fin 24) = true
  /\ Forall (fun s =>
               geb (lastDeparture stops) (or (Number (depart_hour s)) (Fin 0))
               = true) stops.
Proof.
  induction stops as [| s stops (N & G & F)]; cbn [lastDeparture fold_right].
  - repeat split; [discriminate | constructor].
  - fold (lastDeparture stops).
    destruct (Math_max_geb (or (Number (depart_hour s)) (Fin 0))
                (lastDeparture stops) (or_zero_not_NaN _) N)
      as (N' & G1 & G2).
    repeat split; [exact N' | eapply geb_trans; eassumption |].
    constructor; [exact G1 |].
    eapply Forall_impl; [| exact F]. simpl. intros x Hx.
    eapply geb_trans; eassumption.
Qed.

(** X19.  The hour of the sheet-end row is never [NaN] and is after hour
    0; when [num_days] is not a positive finite number it is at least 24
    and not before the departure of any stop. *)
Theorem sheetEndHour_bounds (num_days : value) (stops : list stop) :
  sheetEndHour num_days stops <> NaN
  /\ gtb (sheetEndHour num_days stops) (Fin 0) = true
  /\ (isFinite (Number num_days) && gtb (Number num_days) (Fin 0) = false ->
      geb (sheetEndHour num_days stops) (Fin 24) = true
      /\ Forall (fun s =>
                   geb (sheetEndHour num_days stops)
                       (or (Number (depart_hour s)) (Fin 0)) = true) stops).
Proof.
  unfold sheetEndHour.
  destruct (lastDeparture_bounds stops) as (N & G & F).
  destruct (isFinite (Number num_days) && gtb (Number num_days) (Fin 0)) eqn:E.
  - apply andb_true_iff in E. destruct E as [E1 E2].
    destruct (Number num_days) as [x | | |]; try discriminate E1.
    unfold gtb, ltb in *. simpl.
    split; [discriminate |]. split; [| discriminate].
    unfold Qltb in *. apply negb_true_iff in E2. apply negb_true_iff.
    destruct (Qle_bool (x * 24) 0) eqn:L; [| reflexivity].
    apply Qle_bool_iff in L.
    assert (Qle_bool x 0 = true) by (apply Qle_bool_iff; lra).
    congruence.
  - split; [exact N |]. split; [| auto].
    unfold gtb. unfold geb, leb in G.
    destruct (lastDeparture stops) as [y | | |]; try discriminate; simpl;
      [| reflexivity].
    apply Qle_bool_iff in G. unfold Qltb. apply negb_true_iff.
    destruct (Qle_bool y 0) eqn:L; [| reflexivity].
    apply Qle_bool_iff in L. lra.
Qed.

(** X20.  For a trip of [n] whole days the sheet-end row is placed at hour
    [24 n], which [formatTripTime] prints as midnight of day [n + 1]. *)
Theorem sheet_end_is_next_day (n : Z) (stops : list stop) :
  (1 <= n)%Z ->
  exists q,
    sheetEndHour (VNum (Fin (inject_Z n))) stops = Fin q
    /\ q == 24 * inject_Z n
    /\ Time.formatTripTime (VNum (Fin q)) ", "
       = ("Day " ++ intToString (n + 1) ++ ", 00:00")%string.
Proof.
  intro H. unfold sheetEndHour. cbn [Number isFinite andb].
  assert (P : gtb (Fin (inject_Z n)) (Fin 0) = true).
  { unfold gtb, ltb, Qltb. apply negb_true_iff.
    destruct (Qle_bool (inject_Z n) 0) eqn:L; [| reflexivity].
    apply Qle_bool_iff in L. change 0 with (inject_Z 0) in L.
    rewrite <- Zle_Qle in L. lia. }
  rewrite P. cbn [mul].
  exists (inject_Z n * 24). split; [reflexivity |].
  split; [ring |].
  rewrite (Time.formatTripTime_at (inject_Z n * 24) n 0 0 ", ");
    [reflexivity | lia | lia | lia |].
  unfold inject_Z at 3 4. unfold Qdiv. ring.
Qed.

Lemma sheet_end_is_next_day_witness :
  exists q,
    sheetEndHour (VNum (Fin (inject_Z 2))) [] = Fin q
    /\ q == 24 * inject_Z 2
    /\ Time.formatTripTime (VNum (Fin q)) ", "
       = ("Day " ++ intToString (2 + 1) ++ ", 00:00")%string.
Proof.
  apply (sheet_end_is_next_day 2 []). lia.
Defined.

End TripSummary.

(* ================================================================== *)
(** ** The scheduling engine (HOSClock, StopPolicy, ScheduleSimulator) *)
(* ================================================================== *)

(** The engine runs on the server and its code is not part of the front
    end; the definitions of this module follow sections 3, 4.1, 4.2, 4.3
    and 7 of the specification. *)
Module Engine.

(** Modelled from the spec: the rule set of [DriveParameters] (the
    server's parameter type is missing), section 3. *)
Inductive CycleRule : Type := Rule_70_8 | Rule_60_7.

(** Modelled from the spec: [short_haul_mode] of [DriveParameters]. *)
Inductive ShortHaulMode : Type := ShortHaulNone | ShortHaul150AirMile.

(** Modelled from the spec: [DriveParameters], section 3 and section 6. *)
Record DriveParameters : Type := mkParams {
  current_cycle_used_hours : Q;
  cycle_rule : CycleRule;
  adverse_driving_conditions : bool;
  short_haul_mode : ShortHaulMode;
  use_16_hour_exception : bool;
  used_16_hour_in_last_7_days : bool;
  return_to_reporting_location : bool;
  enable_34h_restart : bool
}.

(** Modelled from the spec: [RouteLeg], section 3, without its
    coordinates. *)
Record RouteLeg : Type := mkLeg {
  distance_miles : Q;
  duration_hours : Q
}.

(** Modelled from the spec: [CycleState], section 3, with the two counters
    section 4.1 reads besides: the driving done in the current window and
    the off-duty hours accumulated in a row. *)
Record CycleState : Type := mkCycleState {
  drive_hours_since_break : Q;
  on_duty_window_elapsed : Q;
  drive_hours_in_window : Q;
  cycle_hours_used : Q;
  odometer_miles : Q;
  absolute_hour : Q;
  miles_since_fuel : Q;
  consecutive_off_duty : Q
}.

Definition minQ (a b : Q) : Q := if Qle_bool a b then a else b.

(** Modelled from the spec: [cycle_limit], 70 for [70_8] and 60 for [60_7]
    (section 4.1). *)
Definition cycle_limit (p : DriveParameters) : Q :=
  match cycle_rule p with
  | Rule_70_8 => 70
  | Rule_60_7 => 60
  end.

(** Modelled from the spec: the on-duty window, 14 hours, 16 under the
    16-hour exception when it was not used in the last 7 days, and 2 hours
    more under adverse driving conditions (section 4.1). *)
Definition window_cap (p : DriveParameters) : Q :=
  (if use_16_hour_exception p && negb (used_16_hour_in_last_7_days p)
   then 16 else 14)
  + (if adverse_driving_conditions p then 2 else 0).

(** Modelled from the spec: the driving cap of a window, 11 hours, and 2
    hours more under adverse driving conditions (section 4.1). *)
Definition drive_cap (p : DriveParameters) : Q :=
  11 + (if adverse_driving_conditions p then 2 else 0).

(** Modelled from the spec: short-haul mode is exempt from the 30-minute
    break (section 4.1). *)
Definition breakApplies (p : DriveParameters) : bool :=
  match short_haul_mode p with
  | ShortHaulNone => true
  | ShortHaul150AirMile => false
  end.

(** Modelled from the spec: [canDriveContinuously(d)] of HOSClock. *)
Definition canDriveContinuously (p : DriveParameters) (s : CycleState)
    (d : Q) : bool :=
  (negb (breakApplies p) || Qle_bool (drive_hours_since_break s + d) 8)
  && Qle_bool (on_duty_window_elapsed s + d) (window_cap p)
  && Qle_bool (drive_hours_in_window s + d) (drive_cap p).

(** Modelled from the spec: [cycleHasCapacity(d)] of HOSClock, true iff
    [cycle_hours_used + d <= cycle_limit]. *)
Definition cycleHasCapacity (p : DriveParameters) (s : CycleState)
    (d : Q) : bool :=
  Qle_bool (cycle_hours_used s + d) (cycle_limit p).

(** Modelled from the spec: [needsBreak()] of HOSClock. *)
Definition needsBreak (p : DriveParameters) (s : CycleState) : bool :=
  breakApplies p && Qle_bool 8 (drive_hours_since_break s).

(** Modelled from the spec: [needsRest()] of HOSClock. *)
Definition needsRest (p : DriveParameters) (s : CycleState) : bool :=
  Qle_bool (window_cap p) (on_duty_window_elapsed s)
  || Qle_bool (drive_cap p) (drive_hours_in_window s).

(** Modelled from the spec: the two waypoints of rule 1 (section 4.2). *)
Inductive Waypoint : Type := Pickup | Dropoff.

(** Modelled from the spec: what StopPolicy decides for the next step, one
    case per rule with rules 2 and 3 sharing the rest (section 4.2). *)
Inductive Action : Type :=
| AtWaypoint (w : Waypoint)
| Rest
| Break30
| Fuel
| Drive (d : Q).

(** Modelled from the spec: the speed a leg implies,
    [distance_miles / duration_hours] (section 4.3 b). *)
Definition speed (leg : RouteLeg) : Q :=
  distance_miles leg / duration_hours leg.

(** Modelled from the spec: [min(remaining_leg_time,
    distance_to_next_trigger)] of rule 6, the triggers being the break at 8
    hours of driving, the end of the window, the driving cap and the fuel
    stop at 1000 miles (section 4.2). *)
Definition proposedDrive (p : DriveParameters) (s : CycleState)
    (leg : RouteLeg) (remaining : Q) : Q :=
  let toBreak :=
    if breakApplies p then 8 - drive_hours_since_break s else remaining in
  let toWindow := window_cap p - on_duty_window_elapsed s in
  let toDriveCap := drive_cap p - drive_hours_in_window s in
  let toFuel :=
    if Qle_bool (distance_miles leg) 0 then remaining
    else (1000 - miles_since_fuel s) / speed leg in
  minQ remaining (minQ toBreak (minQ toWindow (minQ toDriveCap toFuel))).

(** Modelled from the spec: StopPolicy, its six rules in their fixed
    precedence, the first satisfied winning (section 4.2). *)
Definition stopPolicy (p : DriveParameters) (s : CycleState)
    (arrival : option Waypoint) (leg : RouteLeg) (remaining : Q) : Action :=
  match arrival with
  | Some w => AtWaypoint w
  | None =>
      if needsRest p s then Rest
      else if negb (cycleHasCapacity p s (proposedDrive p s leg remaining))
      then Rest
      else if needsBreak p s then Break30
      else if Qle_bool 1000 (miles_since_fuel s) then Fuel
      else Drive (proposedDrive p s leg remaining)
  end.

(** Modelled from the spec: a rest resets the cycle when the off-duty hours
    in a row reach 34 and [enable_34h_restart] is set (sections 4.1 and
    4.2, rule 2). *)
Definition resetsCycle (p : DriveParameters) (s : CycleState) (a : Action)
  : bool :=
  match a with
  | Rest => enable_34h_restart p && Qle_bool 34 (consecutive_off_duty s + 10)
  | _ => false
  end.

(** Modelled from the spec: what an action does to the counters (sections
    4.1 and 4.2): the waypoint hour counts against the window and the
    cycle, a rest zeroes the break and window counters, a break zeroes the
    break counter, a fuel stop zeroes the miles since fuel, and driving
    advances everything. *)
Definition apply (p : DriveParameters) (s : CycleState) (leg : RouteLeg)
    (a : Action) : CycleState :=
  match a with
  | AtWaypoint _ =>
      mkCycleState (drive_hours_since_break s)
                   (on_duty_window_elapsed s + 1)
                   (drive_hours_in_window s)
                   (cycle_hours_used s + 1)
                   (odometer_miles s) (absolute_hour s + 1)
                   (miles_since_fuel s) 0
  | Rest =>
      mkCycleState 0 0 0
                   (if resetsCycle p s Rest then 0 else cycle_hours_used s)
                   (odometer_miles s) (absolute_hour s + 10)
                   (miles_since_fuel s) (consecutive_off_duty s + 10)
  | Break30 =>
      mkCycleState 0 (on_duty_window_elapsed s) (drive_hours_in_window s)
                   (cycle_hours_used s)
                   (odometer_miles s) (absolute_hour s + (1 # 2))
                   (miles_since_fuel s) (consecutive_off_duty s + (1 # 2))
  | Fuel =>
      mkCycleState (drive_hours_since_break s) (on_duty_window_elapsed s)
                   (drive_hours_in_window s) (cycle_hours_used s)
                   (odometer_miles s) (absolute_hour s)
                   0 (consecutive_off_duty s)
  | Drive d =>
      mkCycleState (drive_hours_since_break s + d)
                   (on_duty_window_elapsed s + d)
                   (drive_hours_in_window s + d)
                   (cycle_hours_used s + d)
                   (odometer_miles s + speed leg * d) (absolute_hour s + d)
                   (miles_since_fuel s + speed leg * d) 0
  end.

(** Modelled from the spec: what is left of the route (section 4.3, the
    state machine view): a leg with the hours of it still to drive, or a
    waypoint reached. *)
Inductive Phase : Type :=
| EnRoute (leg : RouteLeg) (remaining : Q)
| Arrive (w : Waypoint).

(** Modelled from the spec: the ways a run ends (section 7). *)
Inductive Outcome : Type :=
| Completed
| DegenerateRoute
| SimulationDivergence.

(** Modelled from the spec: a point of the timeline: the action taken,
    whether it reset the cycle, and the counters after it. *)
Record Entry : Type := mkEntry {
  action : Action;
  cycle_reset : bool;
  after : CycleState
}.

(** Modelled from the spec: a leg with zero duration and nonzero distance,
    or the reverse (section 7). *)
Definition degenerate (leg : RouteLeg) : bool :=
  negb (Bool.eqb (Qeq_bool (distance_miles leg) 0)
                 (Qeq_bool (duration_hours leg) 0)).

(** Modelled from the spec: a waypoint stop belongs to no leg; it is applied
    with this empty one. *)
Definition noLeg : RouteLeg := mkLeg 0 0.

(** Modelled from the spec: the loop of ScheduleSimulator under its
    iteration cap (section 4.3 b and c). *)
Fixpoint run (cap : nat) (p : DriveParameters) (s : CycleState)
    (todo : list Phase) : list Entry * Outcome :=
  match todo with
  | [] => ([], Completed)
  | ph :: rest =>
      match cap with
      | O => ([], SimulationDivergence)
      | S cap' =>
          match ph with
          | Arrive w =>
              let a := stopPolicy p s (Some w) noLeg 0 in
              let s' := apply p s noLeg a in
              let '(tl, out) := run cap' p s' rest in
              (mkEntry a (resetsCycle p s a) s' :: tl, out)
          | EnRoute leg remaining =>
              if degenerate leg then ([], DegenerateRoute)
              else if Qle_bool remaining 0 then run cap' p s rest
              else
                let a := stopPolicy p s None leg remaining in
                let s' := apply p s leg a in
                let remaining' :=
                  match a with
                  | Drive d => remaining - d
                  | _ => remaining
                  end in
                let '(tl, out) :=
                  run cap' p s' (EnRoute leg remaining' :: rest) in
                (mkEntry a (resetsCycle p s a) s' :: tl, out)
          end
      end
  end.

(** Modelled from the spec: the counters at the start, the cycle seeded
    with [current_cycle_used_hours] (section 4.3). *)
Definition initialState (p : DriveParameters) : CycleState :=
  mkCycleState 0 0 0 (current_cycle_used_hours p) 0 0 0 0.

(** Modelled from the spec: the three legs with the pickup and the dropoff
    between them, the third only under [return_to_reporting_location]
    (sections 3 and 4.3). *)
Definition phases (p : DriveParameters) (toPickup toDropoff back : RouteLeg)
  : list Phase :=
  [EnRoute toPickup (duration_hours toPickup); Arrive Pickup;
   EnRoute toDropoff (duration_hours toDropoff); Arrive Dropoff]
  ++ (if return_to_reporting_location p
      then [EnRoute back (duration_hours back)] else []).

(** Modelled from the spec: the hard iteration cap of 10,000 steps (section
    4.3 c). *)
Definition iterationCap : nat := Z.to_nat 10000.

(** Modelled from the spec: ScheduleSimulator, refusing parameters whose
    [current_cycle_used] is outside [[0, cycle_limit]] before it starts
    (sections 4.3 and 7). *)
Definition simulate (p : DriveParameters) (toPickup toDropoff back : RouteLeg)
  : option (list Entry * Outcome) :=
  if Qle_bool 0 (current_cycle_used_hours p)
     && Qle_bool (current_cycle_used_hours p) (cycle_limit p)
  then Some (run iterationCap p (initialState p)
                 (phases p toPickup toDropoff back))
  else None.

(** *** The driving that rule 6 proposes *)

Lemma minQ_le (a b : Q) : minQ a b <= a /\ minQ a b <= b.
Proof.
  unfold minQ. destruct (Qle_bool a b) eqn:E.
  - apply Qle_bool_iff in E. lra.
  - destruct (Qlt_le_dec b a) as [L | L]; [lra |].
    apply Qle_bool_iff in L. congruence.
Qed.

(** The proposed duration never breaks the 8-hour, window or driving
    caps. *)
Lemma proposedDrive_allowed (p : DriveParameters) (s : CycleState)
    (leg : RouteLeg) (remaining : Q) :
  canDriveContinuously p s (proposedDrive p s leg remaining) = true.
Proof.
  unfold canDriveContinuously, proposedDrive.
  set (toFuel := if Qle_bool (distance_miles leg) 0 then _ else _).
  set (toBreak := if breakApplies p then _ else _).
  pose proof (minQ_le (drive_cap p - drive_hours_in_window s) toFuel) as [A _].
  set (m1 := minQ (drive_cap p - drive_hours_in_window s) toFuel) in *.
  pose proof (minQ_le (window_cap p - on_duty_window_elapsed s) m1) as [B B'].
  set (m2 := minQ (window_cap p - on_duty_window_elapsed s) m1) in *.
  pose proof (minQ_le toBreak m2) as [C C'].
  set (m3 := minQ toBreak m2) in *.
  pose proof (minQ_le remaining m3) as [_ D].
  set (d := minQ remaining m3) in *.
  rewrite !andb_true_iff, orb_true_iff, !Qle_bool_iff.
  unfold toBreak in C. clearbody d m3 m2 m1.
  destruct (breakApplies p); simpl; repeat split; lra.
Qed.

(** *** The cycle along a run *)

Definition isDrive (a : Action) : bool :=
  match a with Drive _ => true | _ => false end.

(** The waypoint hours still to come. *)
Fixpoint waypointHours (todo : list Phase) : Q :=
  match todo with
  | [] => 0
  | Arrive _ :: rest => 1 + waypointHours rest
  | EnRoute _ _ :: rest => waypointHours rest
  end.

Lemma waypointHours_nonneg (todo : list Phase) : 0 <= waypointHours todo.
Proof.
  induction todo as [| [leg r | w] rest IH]; simpl; lra.
Qed.

Lemma cycle_limit_pos (p : DriveParameters) : 0 < cycle_limit p.
Proof. unfold cycle_limit. destruct (cycle_rule p); reflexivity. Qed.

(** A point of the timeline is within [bound] hours above the limit, and
    within the limit if it ends a driving period. *)
Definition withinCycle (p : DriveParameters) (bound : Q) (e : Entry) : Prop :=
  cycle_hours_used (after e) <= cycle_limit p + bound
  /\ (isDrive (action e) = true ->
      cycle_hours_used (after e) <= cycle_limit p).

Lemma run_withinCycle (p : DriveParameters) (bound : Q) (cap : nat) :
  forall (s : CycleState) (todo : list Phase),
    waypointHours todo <= bound ->
    cycle_hours_used s + waypointHours todo <= cycle_limit p + bound ->
    Forall (withinCycle p bound) (fst (run cap p s todo)).
Proof.
  pose proof (cycle_limit_pos p) as LP.
  induction cap as [| cap IH]; intros s todo HW HC;
    destruct todo as [| ph rest]; cbn [run fst]; try constructor.
  pose proof (waypointHours_nonneg rest) as WR.
  destruct ph as [leg remaining | w].
  - simpl in HW, HC.
    destruct (degenerate leg); [constructor |].
    destruct (Qle_bool remaining 0); [apply IH; assumption |].
    set (a := stopPolicy p s None leg remaining).
    assert (A : cycle_hours_used (apply p s leg a) <= cycle_hours_used s
                \/ cycle_hours_used (apply p s leg a) <= cycle_limit p).
    { unfold a, stopPolicy.
      destruct (needsRest p s);
        [simpl; destruct (_ && _); [right | left]; lra |].
      destruct (cycleHasCapacity p s (proposedDrive p s leg remaining)) eqn:C;
        simpl negb; cbv iota;
        [| simpl; destruct (_ && _); [right | left]; lra].
      destruct (needsBreak p s); [left; simpl; lra |].
      destruct (Qle_bool 1000 (miles_since_fuel s)); [left; simpl; lra |].
      right. simpl. unfold cycleHasCapacity in C.
      now apply Qle_bool_iff in C. }
    assert (D : isDrive a = true ->
                cycle_hours_used (apply p s leg a) <= cycle_limit p).
    { unfold a, stopPolicy.
      destruct (needsRest p s); [discriminate |].
      destruct (cycleHasCapacity p s (proposedDrive p s leg remaining)) eqn:C;
        simpl negb; cbv iota; [| discriminate].
      destruct (needsBreak p s); [discriminate |].
      destruct (Qle_bool 1000 (miles_since_fuel s)); [discriminate |].
      intros _. simpl. unfold cycleHasCapacity in C.
      now apply Qle_bool_iff in C. }
    match goal with
    | |- context [run cap p ?s' ?t] =>
        pose proof (IH s' t) as IH'; destruct (run cap p s' t) as [tl out]
    end.
    cbn [fst] in *. constructor.
    + split; [destruct A; cbn [after]; lra | exact D].
    + apply IH'; cbn [waypointHours]; [assumption | destruct A; lra].
  - simpl in HW, HC. cbn [stopPolicy].
    match goal with
    | |- context [run cap p ?s' ?t] =>
        pose proof (IH s' t) as IH'; destruct (run cap p s' t) as [tl out]
    end.
    cbn [fst] in *. constructor.
    + split; [cbn; lra | discriminate].
    + apply IH'; [lra | cbn; lra].
Qed.

(** C7 as it is worded: at every point of the timeline the cycle is within
    the limit, unless a rest earlier in the timeline reset it. *)
Definition cycleNeverExceedsLimit (p : DriveParameters)
    (timeline : list Entry) : Prop :=
  forall front e back,
    timeline = front ++ e :: back ->
    cycle_hours_used (after e) <= cycle_limit p
    \/ Exists (fun x => cycle_reset x = true) front.

Definition nearTheLimit : DriveParameters :=
  mkParams 69 Rule_70_8 false ShortHaulNone false false true true.

Definition toPickup : RouteLeg := mkLeg 55 1.
Definition toDropoff : RouteLeg := mkLeg 110 2.
Definition backHome : RouteLeg := mkLeg 55 1.

(** The timeline of that run. *)
Definition nearTheLimitTimeline : list Entry :=
  Eval vm_compute in
    match simulate nearTheLimit toPickup toDropoff backHome with
    | Some (timeline, _) => timeline
    | None => []
    end.

Example nearTheLimit_run :
  simulate nearTheLimit toPickup toDropoff backHome
  = Some (nearTheLimitTimeline, Completed)
  /\ map (fun e => (action e, cycle_reset e, cycle_hours_used (after e)))
         nearTheLimitTimeline
     = [(Drive 1, false, 70); (AtWaypoint Pickup, false, 71);
        (Rest, false, 71); (Rest, false, 71); (Rest, false, 71);
        (Rest, true, 0); (Drive 2, false, 2); (AtWaypoint Dropoff, false, 3);
        (Drive 1, false, 4)].
Proof. split; vm_compute; reflexivity. Qed.

(** C7 fails on the engine as the specification describes it: with 69
    hours used, one hour of driving brings the cycle to 70 and the hour at
    the pickup, which rule 1 places before every other rule and counts
    against the cycle, brings it to 71 before any restart. *)
Lemma pickup_hour_exceeds_limit :
  simulate nearTheLimit toPickup toDropoff backHome
  = Some (nearTheLimitTimeline, Completed)
  /\ ~ cycleNeverExceedsLimit nearTheLimit nearTheLimitTimeline.
Proof.
  split; [vm_compute; reflexivity |].
  intro H. unfold nearTheLimitTimeline in H.
  match type of H with
  | cycleNeverExceedsLimit _ (?e1 :: ?e2 :: ?back) =>
      destruct (H [e1] e2 back eq_refl) as [L | X]
  end.
  - revert L. apply Qlt_not_le. reflexivity.
  - inversion X as [? ? E | ? ? E]; subst; [discriminate E | inversion E].
Qed.

(** C7, amended.  On every run the engine accepts, [cycle_hours_used] is
    within the limit of the cycle rule at the end of every driving period,
    and at every point of the timeline it is above the limit by no more
    than the two hours on duty at the pickup and at the dropoff. *)
Theorem cycle_within_limit_and_waypoint_hours
    (p : DriveParameters) (leg1 leg2 leg3 : RouteLeg)
    (timeline : list Entry) (out : Outcome) :
  simulate p leg1 leg2 leg3 = Some (timeline, out) ->
  Forall (fun e =>
            cycle_hours_used (after e) <= cycle_limit p + 2
            /\ (isDrive (action e) = true ->
                cycle_hours_used (after e) <= cycle_limit p))
         timeline.
Proof.
  unfold simulate.
  destruct (Qle_bool 0 (current_cycle_used_hours p)) eqn:E0; [| discriminate].
  destruct (Qle_bool (current_cycle_used_hours p) (cycle_limit p)) eqn:E1;
    [| discriminate].
  apply Qle_bool_iff in E0, E1. cbn [andb].
  generalize iterationCap. intros cap H. injection H as H.
  replace timeline
    with (fst (run cap p (initialState p) (phases p leg1 leg2 leg3)))
    by now rewrite H.
  apply (run_withinCycle p 2);
    unfold phases; destruct (return_to_reporting_location p); simpl; lra.
Qed.

Lemma cycle_within_limit_and_waypoint_hours_witness :
  simulate nearTheLimit toPickup toDropoff backHome
  = Some (nearTheLimitTimeline, Completed)
  /\ Forall (fun e =>
               cycle_hours_used (after e) <= cycle_limit nearTheLimit + 2
               /\ (isDrive (action e) = true ->
                   cycle_hours_used (after e) <= cycle_limit nearTheLimit))
            nearTheLimitTimeline.
Proof.
  assert (R : simulate nearTheLimit toPickup toDropoff backHome
              = Some (nearTheLimitTimeline, Completed))
    by (vm_compute; reflexivity).
  split; [exact R |].
  exact (cycle_within_limit_and_waypoint_hours
           nearTheLimit toPickup toDropoff backHome
           nearTheLimitTimeline Completed R).
Defined.

End Engine.
